(** * Digital normalization: scripts/normalize-by-median.py

    A shallow embedding of the khmer script [normalize-by-median.py] and a
    verification of its specification.  The script streams sequencing reads,
    asks a k-mer counting table for the median k-mer abundance of every read
    and keeps the reads (or read pairs) that are still below the desired
    coverage.

    Python integers are unbounded and are modelled by [Z]; Python [str] is
    [string]; a generator is modelled by the list of the values it yields,
    each paired with the state of the shared [Normalizer] object at the
    moment the generator is suspended, followed by the way it terminates. *)

From stdpp Require Import base gmap strings list sorting.
From Stdlib Require Import ZArith Lia Ascii.
From Stdlib Require PrimFloat SpecFloat FloatOps.

Local Open Scope string_scope.
Local Open Scope list_scope.
Local Open Scope Z_scope.

(** ** Python exceptions and results *)

(** The exception classes that can reach the script's control flow.
    [IOError] and [ValueError] are the two classes that [CatchIOErrors]
    handles; [NameError] and [ZeroDivisionError] are raised by the
    diagnostics code itself; [SystemExit] is what [sys.exit] raises. *)
Inductive exn : Type :=
  | IOError (msg : string)
  | ValueError (msg : string)
  | NameError (name : string)
  | ZeroDivisionError (msg : string)
  | SystemExit (code : Z).

Inductive result (A : Type) : Type :=
  | Ok (a : A)
  | Raise (e : exn).
Arguments Ok {A} a.
Arguments Raise {A} e.

#[global] Instance result_ret : MRet result := λ A a, Ok a.
#[global] Instance result_bind : MBind result := λ A B k r,
  match r with
  | Ok a => k a
  | Raise e => Raise e
  end.

(** [str(error)] for the message printed by [CatchIOErrors]. *)
Definition str_of_exn (e : exn) : string :=
  match e with
  | IOError m | ValueError m | ZeroDivisionError m => m
  | NameError n => "global name '" +:+ n +:+ "' is not defined"
  | SystemExit _ => ""
  end.

(** ** Reads and the units produced by the pair-aware reader *)

(** A screed record: the script reads [record.sequence] and hands the whole
    record to [write_record]. *)
Record Read : Type := mkRead {
  name : string;
  sequence : string;
  quality : option string
}.

(** [s.replace(old, new)] for one-character [old] and [new]. *)
Fixpoint replace (old new : Ascii.ascii) (s : string) : string :=
  match s with
  | EmptyString => EmptyString
  | String c s' => String (if Ascii.eqb c old then new else c) (replace old new s')
  end.

(** One element of [broken_paired_reader]: the tuple
    [(index, is_paired, read0, read1)] that [Normalizer.__call__] unpacks. *)
Record Item : Type := mkItem {
  item_index : Z;
  is_paired : bool;
  read0 : Read;
  read1 : option Read
}.

(** The two logical units of the specification. *)
Definition Single (i : Z) (r : Read) : Item := mkItem i false r None.
Definition Pair (i : Z) (r0 r1 : Read) : Item := mkItem i true r0 (Some r1).

(** A unit is a logical unit when its pairing flag agrees with the presence
    of the second read, as for [Single] and [Pair]. *)
Definition logical_unit (u : Item) : Prop :=
  is_paired u = bool_decide (is_Some (read1 u)).

(** The number of constituent records of a unit. *)
Definition unit_size (u : Item) : Z := if is_paired u then 2 else 1.

(** The reader is a finite lazy stream that ends normally or by raising. *)
Inductive Reader : Type :=
  | ReaderStop
  | ReaderItem (u : Item) (rest : Reader)
  | ReaderRaise (e : exn).

Fixpoint reader_of_list (us : list Item) : Reader :=
  match us with
  | [] => ReaderStop
  | u :: us' => ReaderItem u (reader_of_list us')
  end.

(** ** The abundance oracle (khmer counting table)

    The counting table is implemented in the khmer extension module; the
    script only uses the operations below. *)
Class CountingHash (H : Type) : Type := {
  stat : Type;
  get_median_count : H → string → Z * stat * stat;
  consume : H → string → H;
  n_unique_kmers : H → Z
}.

Section Normalizer.
Context {H : Type} `{CountingHash H}.

(** [class Normalizer]: the attributes set by [__init__]. *)
Record Normalizer : Type := mkNormalizer {
  htable : H;
  desired_coverage : Z;
  total : Z;
  discarded : Z
}.

Definition Normalizer_init (desired_coverage : Z) (htable : H) : Normalizer :=
  mkNormalizer htable desired_coverage 0 0.

Definition set_htable (n : Normalizer) (h : H) : Normalizer :=
  mkNormalizer h (desired_coverage n) (total n) (discarded n).
Definition add_total (n : Normalizer) (k : Z) : Normalizer :=
  mkNormalizer (htable n) (desired_coverage n) (total n + k) (discarded n).
Definition add_discarded (n : Normalizer) (k : Z) : Normalizer :=
  mkNormalizer (htable n) (desired_coverage n) (total n) (discarded n + k).

(** [batch = []; batch.append(read0); if read1 is not None: batch.append(read1)] *)
Definition batch_of (u : Item) : list Read :=
  read0 u :: match read1 u with Some r => [r] | None => [] end.

(** [seq = record.sequence.replace('N', 'A')] *)
Definition seq_of (record : Read) : string := replace "N"%char "A"%char (sequence record).

(** [med, _, _ = self.htable.get_median_count(seq)] *)
Definition median_of (h : H) (record : Read) : Z :=
  let '(med, _, _) := get_median_count h (seq_of record) in med.

(** The first loop over the batch: [passed_filter] starts [False] and is
    set when a record's median is below the desired coverage. *)
Definition filter_batch (h : H) (desired_coverage : Z) (batch : list Read) : bool :=
  fold_left
    (fun passed_filter record =>
       if median_of h record <? desired_coverage then true else passed_filter)
    batch false.

(** The second loop over the batch: consume, then yield.  Each yielded
    record comes with the [Normalizer] as it is while the generator is
    suspended at that [yield]. *)
Fixpoint consume_batch (n : Normalizer) (batch : list Read)
  : list (Read * Normalizer) * Normalizer :=
  match batch with
  | [] => ([], n)
  | record :: rest =>
      let n1 := set_htable n (consume (htable n) (seq_of record)) in
      let '(ys, n2) := consume_batch n1 rest in
      ((record, n1) :: ys, n2)
  end.

(** One iteration of the [for] loop of [Normalizer.__call__]. *)
Definition call_unit (n : Normalizer) (u : Item)
  : list (Read * Normalizer) * Normalizer :=
  let n := add_total n 1 in
  let n := if is_paired u then add_total n 1 else n in
  let batch := batch_of u in
  if filter_batch (htable n) (desired_coverage n) batch
  then consume_batch n batch
  else ([], add_discarded n (Z.of_nat (length batch))).

(** A finished run of a generator over the [Normalizer]: what was yielded,
    how the generator ended ([None] for exhaustion) and the [Normalizer]
    object it leaves behind. *)
Record Run (Y : Type) : Type := mkRun {
  yielded : list Y;
  raised : option exn;
  final : Normalizer
}.
Arguments mkRun {Y} _ _ _.
Arguments yielded {Y} _.
Arguments raised {Y} _.
Arguments final {Y} _.

(** [Normalizer.__call__(reader)] *)
Fixpoint Normalizer_call (n : Normalizer) (reader : Reader)
  : Run (Read * Normalizer) :=
  match reader with
  | ReaderStop => mkRun [] None n
  | ReaderRaise e => mkRun [] (Some e) n
  | ReaderItem u rest =>
      let '(ys, n') := call_unit n u in
      let r := Normalizer_call n' rest in
      mkRun (ys ++ yielded r) (raised r) (final r)
  end.

(** The [Normalizer] after the first units of a stream were processed. *)
Definition after_units (n : Normalizer) (us : list Item) : Normalizer :=
  fold_left (fun n u => snd (call_unit n u)) us n.

(** The run-state invariant. *)
Definition counters_ok (n : Normalizer) : Prop :=
  0 ≤ discarded n ∧ discarded n ≤ total n.

End Normalizer.

Arguments Normalizer H : clear implicits.
Arguments mkRun {H Y} _ _ _.
Arguments yielded {H Y} _.
Arguments raised {H Y} _.
Arguments final {H Y} _.

(** ** Floating point

    Python floats are IEEE 754 binary64 numbers, as are Rocq's primitive
    floats.  [float(total)] and [int(x)] raise [OverflowError] on integers
    beyond the binary64 range (about 1.8e308); the counters count records
    that were read, and that range is left out of the model. *)

(** [float(z)]: the nearest binary64 number, ties to even. *)
Definition float_of_int (z : Z) : PrimFloat.float :=
  FloatOps.SF2Prim (SpecFloat.binary_normalize FloatOps.prec FloatOps.emax z 0 false).

(** [int(x)]: truncation towards zero. *)
Definition int_of_float (x : PrimFloat.float) : Z :=
  match FloatOps.Prim2SF x with
  | SpecFloat.S754_finite s m e =>
      let a := if 0 <=? e then Z.shiftl (Z.pos m) e else Z.shiftr (Z.pos m) (- e) in
      if s then - a else a
  | _ => 0
  end.

(** [a / float(b)]: Python raises when the divisor [float(b)] is [0.0],
    that is when [b] is [0]. *)
Definition div_float (a b : Z) : result PrimFloat.float :=
  if b =? 0 then Raise (ZeroDivisionError "float division by zero")
  else Ok (PrimFloat.div (float_of_int a) (float_of_int b)).

(** [int(100. - q * 100.)] *)
Definition percent_kept (q : PrimFloat.float) : Z :=
  int_of_float
    (PrimFloat.sub (float_of_int 100) (PrimFloat.mul q (float_of_int 100))).

(** [int(100. - discarded / float(total) * 100.)] *)
Definition perc (discarded total : Z) : result Z :=
  q ← div_float discarded total;
  mret (percent_kept q).

(** [1. - (discarded / float(total))] *)
Definition discarded_fraction (discarded total : Z) : result PrimFloat.float :=
  q ← div_float discarded total;
  mret (PrimFloat.sub (float_of_int 1) q).

(** ** Output of the script *)

(** The lines printed to [sys.stderr], by their format string. *)
Inductive log_line : Type :=
  | Info (script : string) (algorithms : list string)
      (* khmer_args.info: the version and citation banner *)
  | ReportOnConfig
      (* khmer_args.report_on_config: the table parameters *)
  | KeptSoFar (kept total perc : Z)
      (* '... kept {kept} of {total} or {perc:2}%' *)
  | InFile (ifilename : string)
      (* '... in file ' + ifilename *)
  | SkippedEmpty (ifilename : string)
      (* 'SKIPPED empty file ' + ifilename *)
  | DoneWith (inp : string) (kept total perc : Z)
      (* 'DONE with {inp}; kept {kept} of {total} or {perc:2}%' *)
  | ErrorLine (msg : string)
      (* '** ERROR: ' + str(error) *)
  | FailedOn (ifile : string)
      (* '** Failed on {name}: ' *)
  | Exiting
      (* '** Exiting!' *)
  | SkippingErrorFile
      (* '*** Skipping error file, moving on...' *)
  | BothModesForced
      (* '** ERROR: Both single and paired modes forced.' *)
  | DuplicateName (filename : string)
      (* 'WARNING: At least two input files are named %s . ...' *)
  | LoadingTable (loadtable : string)
      (* 'loading k-mer counting table from ' + args.loadtable *)
  | MakingTable
      (* 'making k-mer counting table' *)
  | OutputIn (output_name : string)
      (* 'output in ' + output_name *)
  | UniqueKmers (n : Z)
      (* 'Total number of unique k-mers: {0}' *)
  | SavingTo (savetable : string)
      (* '...saving to ' + args.savetable *)
  | FpRate (fpr : PrimFloat.float)
      (* 'fp rate estimated to be {fpr:1.3f}' *)
  | FinishedWithErrors
      (* '** WARNING: Finished with errors!' *)
  | IOErrorsOccurred
      (* '** IOErrors occurred in the following files:' *)
  | CorruptFiles (corrupt_files : list string).
      (* '\t', ' '.join(corrupt_files) *)

(** What the script does to the outside world, in order. *)
Inductive effect : Type :=
  | Stderr (l : log_line)
      (* print(..., file=sys.stderr) *)
  | ReportLine (total kept : Z) (discarded : PrimFloat.float)
      (* print('{total} {kept} {discarded}'.format(...), file=fp) *)
  | ReportFlush
      (* fp.flush() *)
  | OpenWrite (path : string)
      (* open(path, 'w') *)
  | WriteRecord (path : string) (record : Read)
      (* write_record(record, outfp) *)
  | Remove (path : string)
      (* os.remove(path) *)
  | SaveTable (path : string).
      (* htable.save(path) *)

(** What the generator [WithDiagnostics] produces: effects, and the records
    it yields to its caller. *)
Inductive diag : Type :=
  | Effect (e : effect)
  | YieldRecord (record : Read).

(** Straight-line code with output: what was produced, then a value or the
    exception that stopped it. *)
Definition Act (O A : Type) : Type := list O * result A.

Definition act_ret {O A} (a : A) : Act O A := ([], Ok a).
Definition act_bind {O A B} (m : Act O A) (k : A → Act O B) : Act O B :=
  match m with
  | (out, Ok a) => let '(out', r) := k a in (out ++ out', r)
  | (out, Raise e) => (out, Raise e)
  end.
Definition emit {O} (o : O) : Act O unit := ([o], Ok tt).
Definition raise {O A} (e : exn) : Act O A := ([], Raise e).
Definition lift {O A} (r : result A) : Act O A := ([], r).

Notation "x ←ₐ m ; k" := (act_bind m (fun x => k))
  (at level 20, m at level 100, k at level 200, only parsing).
Notation "m ;ₐ k" := (act_bind m (fun _ => k))
  (at level 100, k at level 200, right associativity, only parsing).

Section WithDiagnostics.
Context {H : Type} `{CountingHash H}.

Definition print_stderr (l : log_line) : Act diag unit :=
  emit (Effect (Stderr l)).

(** The body of [if index > 0 and index % 100000 == 0:].  The names
    [total] and [discarded] in the write to [fp] are bound nowhere: not in
    the function, not in the module, not among the builtins. *)
Definition periodic_report (ifilename : string) (fp : option string)
    (norm : Normalizer H) : Act diag unit :=
  p ←ₐ lift (perc (discarded norm) (total norm));
  print_stderr (KeptSoFar (total norm - discarded norm) (total norm) p) ;ₐ
  print_stderr (InFile ifilename) ;ₐ
  match fp with
  | Some _ => raise (NameError "total")
  | None => act_ret tt
  end.

(** [for index, record in enumerate(norm(reader)): ...; yield record].
    The second component tells how the loop was left: [None] when the
    records ran out, or the exception with the [Normalizer] as it was at
    the record being handled. *)
Fixpoint diagnostics_loop (ifilename : string) (fp : option string)
    (index : Z) (ys : list (Read * Normalizer H))
  : list diag * option (exn * Normalizer H) :=
  match ys with
  | [] => ([], None)
  | (record, norm) :: ys' =>
      let report :=
        if (index >? 0) && (index mod 100000 =? 0)
        then periodic_report ifilename fp norm
        else act_ret tt in
      match report with
      | (out, Raise e) => (out, Some (e, norm))
      | (out, Ok _) =>
          let '(out', r) := diagnostics_loop ifilename fp (index + 1) ys' in
          (out ++ YieldRecord record :: out', r)
      end
  end.

(** The code after the loop: the per-file line, then the report line. *)
Definition per_file_report (ifilename : string) (fp : option string)
    (norm : Normalizer H) : Act diag unit :=
  (if total norm =? 0
   then print_stderr (SkippedEmpty ifilename)
   else
     p ←ₐ lift (perc (discarded norm) (total norm));
     print_stderr
       (DoneWith ifilename (total norm - discarded norm) (total norm) p)) ;ₐ
  match fp with
  | Some _ =>
      f ←ₐ lift (discarded_fraction (discarded norm) (total norm));
      emit (Effect (ReportLine (total norm) (total norm - discarded norm) f)) ;ₐ
      emit (Effect ReportFlush)
  | None => act_ret tt
  end.

(** [WithDiagnostics(ifilename, norm, reader, fp)], run to its end. *)
Definition WithDiagnostics (ifilename : string) (norm : Normalizer H)
    (reader : Reader) (fp : option string) : Run (H:=H) diag :=
  let r := Normalizer_call norm reader in
  match diagnostics_loop ifilename fp 0 (yielded r) with
  | (out, Some (e, n)) => mkRun out (Some e) n
  | (out, None) =>
      match raised r with
      | Some e => mkRun out (Some e) (final r)
      | None =>
          match per_file_report ifilename fp (final r) with
          | (out', Ok _) => mkRun (out ++ out') None (final r)
          | (out', Raise e) => mkRun (out ++ out') (Some e) (final r)
          end
      end
  end.

End WithDiagnostics.

(** ** The command line and the rest of khmer *)

(** [args.single_output_file] is a file object opened by [argparse]. *)
Inductive out_file : Type :=
  | Stdout
  | NamedFile (name : string).

(** The namespace returned by [get_parser().parse_args()]. *)
Record Args : Type := mkArgs {
  ksize : Z;
  min_tablesize : Z;
  n_tables : Z;
  cutoff : Z;
  paired : bool;
  force_single : bool;
  unpaired_reads : option string;
  savetable : string;
  report : option string;
  force : bool;
  single_output_file : option out_file;
  input_filenames : list string;
  loadtable : option string
}.

(** The functions of [khmer], [khmer.kfile], [khmer.utils] and [screed] that
    [main] calls.  [open_reader filename min_length force_single
    require_paired] is [broken_paired_reader] over [screed.open(filename)];
    the space checks and the collision estimate may call [sys.exit]. *)
Class Khmer (H : Type) : Type := {
  check_space : list string → bool → result unit;
  check_space_for_hashtable : Z → bool → result unit;
  load_counting_hash : string → H;
  new_counting_hash : Z → Z → Z → H;
  open_reader : string → Z → bool → bool → Reader;
  calc_expected_collisions : H → bool → result PrimFloat.float
}.

(** [path.split('/')[-1]], which is also [os.path.basename(path)]. *)
Fixpoint basename_from (cur : string) (path : string) : string :=
  match path with
  | EmptyString => cur
  | String c rest =>
      if Ascii.eqb c "/"%char then basename_from EmptyString rest
      else basename_from (cur +:+ String c EmptyString) rest
  end.
Definition basename (path : string) : string := basename_from EmptyString path.

(** The exit status of the process. *)
Definition exit_status (r : result unit) : Z :=
  match r with
  | Ok _ => 0
  | Raise (SystemExit code) => code
  | Raise _ => 1
  end.

Section Main.
Context {H : Type} `{CountingHash H} `{Khmer H}.

Definition print (l : log_line) : Act effect unit := emit (Stderr l).

(** [except (IOError, ValueError) as error] *)
Definition caught (error : exn) : bool :=
  match error with
  | IOError _ | ValueError _ => true
  | _ => false
  end.

(** [with CatchIOErrors(ifile, out, single_out, force, corrupt_files): body].
    The body is given by what it did and the exception it raised, if any;
    the result is the list [corrupt_files] afterwards. *)
Definition CatchIOErrors (ifile : string) (out_name : string)
    (single_out : option out_file) (force : bool)
    (corrupt_files : list string) (body : list effect * option exn)
  : Act effect (list string) :=
  match body with
  | (out, None) => (out, Ok corrupt_files)
  | (out, Some error) =>
      if caught error then
        (out, Ok tt) ;ₐ
        print (ErrorLine (str_of_exn error)) ;ₐ
        print (FailedOn ifile) ;ₐ
        match single_out with
        | Some _ => act_ret tt
        | None => emit (Remove out_name)
        end ;ₐ
        if negb force then
          print Exiting ;ₐ
          raise (SystemExit 1)
        else
          print SkippingErrorFile ;ₐ
          act_ret (corrupt_files ++ [ifile])
      else (out, Raise error)
  end.

(** [for record in WithDiagnostics(...): if record is not None:
    write_record(record, outfp)] *)
Definition write_out (output_name : string) (d : diag) : effect :=
  match d with
  | Effect e => e
  | YieldRecord record => WriteRecord output_name record
  end.

(** The body of the [with] block for one file. *)
Definition normalize_file (args : Args) (norm : Normalizer H)
    (filename : string) (require_paired : bool) (output_name : string)
  : Run (H:=H) effect :=
  let reader :=
    open_reader filename (ksize args) (force_single args) require_paired in
  let r := WithDiagnostics filename norm reader (report args) in
  let out := map (write_out output_name) (yielded r) in
  match raised r with
  | None => mkRun (out ++ [Stderr (OutputIn output_name)]) None (final r)
  | Some e => mkRun out (Some e) (final r)
  end.

Definition output_name_of (args : Args) (filename : string) : string :=
  match single_output_file args with
  | Some Stdout => "/dev/stdout"
  | Some (NamedFile name) => name
  | None => basename filename +:+ ".keep"
  end.

(** [for filename, require_paired in files: ...] *)
Fixpoint process_files (args : Args) (norm : Normalizer H)
    (corrupt_files : list string) (files : list (string * bool))
  : Act effect (Normalizer H * list string) :=
  match files with
  | [] => act_ret (norm, corrupt_files)
  | (filename, require_paired) :: rest =>
      let output_name := output_name_of args filename in
      emit (OpenWrite output_name) ;ₐ
      let r := normalize_file args norm filename require_paired output_name in
      corrupt_files ←ₐ
        CatchIOErrors filename output_name (single_output_file args)
          (force args) corrupt_files (yielded r, raised r);
      process_files args (final r) corrupt_files rest
  end.

(** The check for similar filenames. *)
Fixpoint check_names (filenames : list string) (paths : list string)
  : Act effect unit :=
  match paths with
  | [] => act_ret tt
  | pathfilename :: rest =>
      let filename := basename pathfilename in
      if bool_decide (filename ∈ filenames)
      then print (DuplicateName filename) ;ₐ check_names filenames rest
      else check_names (filenames ++ [filename]) rest
  end.

(** The list of all filenames and whether they are paired. *)
Definition files_of (args : Args) : list (string * bool) :=
  map (fun e => (e, paired args)) (input_filenames args)
  ++ match unpaired_reads args with
     | Some u => if bool_decide (u = "") then [] else [(u, false)]
     | None => []
     end.

(** [main()], after the command line was parsed.  An option that was not
    given is [None]; [check_valid_file_exists] only prints and is left
    out. *)
Definition main (args : Args) : Act effect unit :=
  print (Info "normalize-by-median.py" ["diginorm"]) ;ₐ
  if force_single args && paired args then
    print BothModesForced ;ₐ
    raise (SystemExit 0)
  else
    print ReportOnConfig ;ₐ
    check_names [] (input_filenames args) ;ₐ
    lift (check_space (input_filenames args) (force args)) ;ₐ
    (if bool_decide (savetable args = "") then act_ret tt
     else lift (check_space_for_hashtable
                  (n_tables args * min_tablesize args) (force args))) ;ₐ
    table ←ₐ
      match loadtable args with
      | Some path =>
          print (LoadingTable path) ;ₐ act_ret (load_counting_hash path)
      | None =>
          print MakingTable ;ₐ
          act_ret (new_counting_hash (ksize args) (min_tablesize args)
                     (n_tables args))
      end;
    let norm := Normalizer_init (cutoff args) table in
    st ←ₐ process_files args norm [] (files_of args);
    let '(norm, corrupt_files) := st in
    print (UniqueKmers (n_unique_kmers (htable norm))) ;ₐ
    (if bool_decide (savetable args = "") then act_ret tt
     else print (SavingTo (savetable args)) ;ₐ
          emit (SaveTable (savetable args))) ;ₐ
    fp_rate ←ₐ lift (calc_expected_collisions (htable norm) (force args));
    print (FpRate fp_rate) ;ₐ
    if force args && (0 <? Z.of_nat (length corrupt_files)) then
      print FinishedWithErrors ;ₐ
      print IOErrorsOccurred ;ₐ
      print (CorruptFiles corrupt_files)
    else act_ret tt.

End Main.

(** ** A counting table to run the script on

    Modelled from the spec: the abundance oracle (khmer's counting table,
    part of the extension module) is missing from the script.  This is the
    oracle of the glossary without hash collisions: it counts every k-mer
    that was consumed, and the median k-mer abundance of a read is the
    middle element of the sorted counts of its k-mers.
    [get_median_count] returns the triple (median, min, max). *)
Record ExactCounter : Type := mkExactCounter {
  counter_ksize : nat;
  counts : gmap string Z
}.

(** The k-mers of a sequence: every window of [k] symbols, in order. *)
Fixpoint kmers (k : nat) (s : string) : list string :=
  match s with
  | EmptyString => []
  | String _ s' =>
      if decide (k ≤ String.length s)%nat
      then String.substring 0 k s :: kmers k s'
      else []
  end.

Definition kmer_count (c : ExactCounter) (kmer : string) : Z :=
  default 0 (counts c !! kmer).

Definition exact_median_count (c : ExactCounter) (s : string) : Z * Z * Z :=
  let sorted := merge_sort Z.le (map (kmer_count c) (kmers (counter_ksize c) s)) in
  (nth (Nat.div2 (length sorted)) sorted 0, hd 0 sorted, List.last sorted 0).

Definition exact_consume (c : ExactCounter) (s : string) : ExactCounter :=
  fold_left
    (fun c kmer =>
       mkExactCounter (counter_ksize c) (<[kmer := kmer_count c kmer + 1]> (counts c)))
    (kmers (counter_ksize c) s) c.

#[global] Instance exact_counting_hash : CountingHash ExactCounter := {
  stat := Z;
  get_median_count := exact_median_count;
  consume := exact_consume;
  n_unique_kmers := fun c => Z.of_nat (size (counts c))
}.

Definition new_exact_counter (k : nat) : ExactCounter := mkExactCounter k ∅.

(** A file system to run [main] on: the units that the reader produces for
    each input file, and how the stream of that file ends.  Opening a file
    that is not listed raises [IOError]; there is always enough space. *)
Fixpoint reader_ending (us : list Item) (ending : option exn) : Reader :=
  match us with
  | [] => match ending with Some e => ReaderRaise e | None => ReaderStop end
  | u :: us' => ReaderItem u (reader_ending us' ending)
  end.

Definition khmer_on (fs : list (string * (list Item * option exn)))
  : Khmer ExactCounter := {|
  check_space := fun _ _ => Ok tt;
  check_space_for_hashtable := fun _ _ => Ok tt;
  load_counting_hash := fun _ => new_exact_counter 4;
  new_counting_hash := fun k _ _ => new_exact_counter (Z.to_nat k);
  open_reader := fun filename _ _ _ =>
    match list_find (fun f => f.1 = filename) fs with
    | Some (_, (_, (us, ending))) => reader_ending us ending
    | None => ReaderRaise (IOError ("No such file: " +:+ filename))
    end;
  calc_expected_collisions := fun _ _ => Ok (float_of_int 0)
|}.

(** ** Vocabulary of the specification *)

Section Vocabulary.
Context {H : Type} `{CountingHash H}.

(** Some record of the batch has a median below the desired coverage. *)
Definition some_below (h : H) (desired_coverage : Z) (batch : list Read) : Prop :=
  ∃ record, record ∈ batch ∧ median_of h record < desired_coverage.

(** All the records of a batch consumed into a table, in order. *)
Definition consume_all (h : H) (batch : list Read) : H :=
  fold_left (fun h record => consume h (seq_of record)) batch h.

(** The [Normalizer] once the records of a unit were added to [total]. *)
Definition counted (n : Normalizer H) (u : Item) : Normalizer H :=
  add_total n (unit_size u).

(** The units of a stream, and how the stream ends. *)
Fixpoint units_of (reader : Reader) : list Item :=
  match reader with
  | ReaderItem u rest => u :: units_of rest
  | _ => []
  end.

Fixpoint ending_of (reader : Reader) : option exn :=
  match reader with
  | ReaderStop => None
  | ReaderRaise e => Some e
  | ReaderItem _ rest => ending_of rest
  end.

(** The number of constituent records of a list of units. *)
Definition records_in (us : list Item) : Z :=
  fold_right (fun u k => unit_size u + k) 0 us.

(** The kept percentage shown for counters with a non-zero total. *)
Definition kept_percentage (discarded total : Z) : Z :=
  percent_kept (PrimFloat.div (float_of_int discarded) (float_of_int total)).

(** A progress line is due at the positive multiples of 100000. *)
Definition progress_due (index : Z) : bool :=
  (0 <? index) && (index mod 100000 =? 0).

(** The two lines of a progress report for the counters of [norm]. *)
Definition progress_lines (ifilename : string) (norm : Normalizer H) : list diag :=
  [Effect (Stderr (KeptSoFar (total norm - discarded norm) (total norm)
                     (kept_percentage (discarded norm) (total norm))));
   Effect (Stderr (InFile ifilename))].

(** What [WithDiagnostics] does for the record with a given index among
    the records yielded by the normalizer for the current file. *)
Definition at_record (ifilename : string) (index : nat)
    (y : Read * Normalizer H) : list diag :=
  (if progress_due (Z.of_nat index) then progress_lines ifilename y.2 else [])
  ++ [YieldRecord y.1].

Definition is_progress (d : diag) : bool :=
  match d with
  | Effect (Stderr (KeptSoFar _ _ _)) => true
  | _ => false
  end.

Definition is_yield (d : diag) : bool :=
  match d with
  | YieldRecord _ => true
  | _ => false
  end.

(** For every progress line of a trace, the number of records yielded
    before it: the index of the record it was printed for. *)
Fixpoint progress_indices (seen : Z) (out : list diag) : list Z :=
  match out with
  | [] => []
  | d :: out' =>
      if is_progress d then seen :: progress_indices seen out'
      else if is_yield d then progress_indices (seen + 1) out'
      else progress_indices seen out'
  end.

(** The summary line printed at the end of a file. *)
Definition summary_line (ifilename : string) (norm : Normalizer H) : log_line :=
  DoneWith ifilename (total norm - discarded norm) (total norm)
    (kept_percentage (discarded norm) (total norm)).

(** The record appended to the report stream at the end of a file. *)
Definition report_lines (norm : Normalizer H) : list diag :=
  [Effect (ReportLine (total norm) (total norm - discarded norm)
             (PrimFloat.sub (float_of_int 1)
                (PrimFloat.div (float_of_int (discarded norm))
                   (float_of_int (total norm)))));
   Effect ReportFlush].

(** What [WithDiagnostics] prints once the records of a file ran out. *)
Definition closing_lines (ifilename : string) (fp : option string)
    (norm : Normalizer H) : list diag :=
  if total norm =? 0 then [Effect (Stderr (SkippedEmpty ifilename))]
  else Effect (Stderr (summary_line ifilename norm))
       :: match fp with Some _ => report_lines norm | None => [] end.

End Vocabulary.

Section RunVocabulary.
Context {H : Type} `{CountingHash H} `{Khmer H}.

(** The units that the reader produces for an entry of the file list. *)
Definition units_read (args : Args) (file : string * bool) : list Item :=
  units_of (open_reader file.1 (ksize args) (force_single args) file.2).

(** The number of records read from a list of files. *)
Definition records_read (args : Args) (files : list (string * bool)) : Z :=
  fold_right (fun file k => records_in (units_read args file) + k) 0 files.

(** The end-of-file lines of the log stream. *)
Definition is_summary (e : effect) : bool :=
  match e with
  | Stderr (DoneWith _ _ _ _) | Stderr (SkippedEmpty _) => true
  | _ => false
  end.

(** An item of a trace that does not become an end-of-file line: a
    record or a progress line. *)
Definition loop_item (d : diag) : Prop :=
  ∀ output_name, is_summary (write_out output_name d) = false.

(** What [WithDiagnostics] can produce: lines on the log stream, writes
    to the report stream and records. *)
Definition diag_kind (d : diag) : Prop :=
  match d with
  | Effect (Stderr _) | Effect (ReportLine _ _ _) | Effect ReportFlush
  | YieldRecord _ => True
  | Effect _ => False
  end.

Definition is_remove (e : effect) : bool :=
  match e with
  | Remove _ => true
  | _ => false
  end.

(** The counting table that [main] starts with. *)
Definition initial_table (args : Args) : H :=
  match loadtable args with
  | Some path => load_counting_hash path
  | None => new_counting_hash (ksize args) (min_tablesize args) (n_tables args)
  end.

(** What [CatchIOErrors] does with the output file of a failed input. *)
Definition removal (args : Args) (output_name : string) : list effect :=
  match single_output_file args with
  | Some _ => []
  | None => [Remove output_name]
  end.

(** The effects of the report at the end of a file. *)
Definition report_effects (args : Args) (norm : Normalizer H) : list effect :=
  match report args with
  | Some _ =>
      [ReportLine (total norm) (total norm - discarded norm)
         (PrimFloat.sub (float_of_int 1)
            (PrimFloat.div (float_of_int (discarded norm))
               (float_of_int (total norm))));
       ReportFlush]
  | None => []
  end.

End RunVocabulary.

(** ** Sample inputs *)

(** A read with a single 4-mer, and files that repeat it. *)
Definition read_acgt : Read := mkRead "read" "ACGT" None.

Definition same_reads (indices : list nat) : list Item :=
  (fun i => Single (Z.of_nat i) read_acgt) <$> indices.

(** A single-end file of 100,001 records with identical content. *)
Definition identical_file : list Item := same_reads (seq 0 (S (Z.to_nat 100000))).

(** The exact counter after the read was consumed [j] times. *)
Definition table_after (j : nat) : ExactCounter :=
  Nat.iter j (fun c => exact_consume c "ACGT") (new_exact_counter 4).

(** A new [Normalizer] over an empty exact counter for 4-mers. *)
Definition fresh (cutoff : Z) : Normalizer ExactCounter :=
  Normalizer_init cutoff (new_exact_counter 4).

(** A pair of reads, and a table in which their medians are 2 and 50. *)
Definition mate_a : Read := mkRead "frag/1" "AANA" None.
Definition mate_c : Read := mkRead "frag/2" "CCCC" None.
Definition table_2_50 : ExactCounter :=
  Nat.iter 50 (fun c => exact_consume c "CCCC")
    (Nat.iter 2 (fun c => exact_consume c "AAAA") (new_exact_counter 4)).
Definition norm_2_50 : Normalizer ExactCounter := mkNormalizer table_2_50 10 0 0.

(** A short stream with a single read and a pair. *)
Definition short_stream : list Item :=
  [Single 0 read_acgt; Pair 1 mate_a mate_c].

(** A stream that under cutoff 1 has its first read kept, its pair of two
    copies of that read discarded and its last read kept. *)
Definition discarding_stream : list Item :=
  [Single 0 read_acgt; Pair 1 read_acgt read_acgt; Single 3 mate_c].

(** The [Normalizer] after the first record of [identical_file] was kept
    under cutoff 1, and after [k] more records were discarded. *)
Definition after_first_kept (k : Z) : Normalizer ExactCounter :=
  mkNormalizer (table_after 1) 1 (1 + k) k.

(** Command lines: 4-mers, per-file output unless [out] is given. *)
Definition sample_args (cutoff : Z) (paired force_single force : bool)
    (report : option string) (out : option out_file)
    (input_filenames : list string) : Args :=
  mkArgs 4 1000000 4 cutoff paired force_single None "" report force out
    input_filenames None.

(** Input files: three reads, no reads, two reads, and a file with a
    malformed record after its first read. *)
Definition sample_files : list (string * (list Item * option exn)) :=
  [("data/reads.fa",
    ([Single 0 read_acgt; Single 1 mate_c; Single 2 read_acgt], None));
   ("empty.fa", ([], None));
   ("more.fa", ([Single 0 mate_a; Single 1 read_acgt], None));
   ("broken.fq", ([Single 0 mate_a], Some (ValueError "bad record")))].

(** The [Normalizer] after ["data/reads.fa"] was processed under cutoff 1:
    two of its three records were kept. *)
Definition after_reads : Normalizer ExactCounter :=
  mkNormalizer
    (exact_consume (exact_consume (new_exact_counter 4) "ACGT") "CCCC") 1 3 1.

(** ** Vocabulary of the further properties *)

(** The records among the items that [WithDiagnostics] produces. *)
Definition records_of (out : list diag) : list Read :=
  omap (fun d => match d with YieldRecord record => Some record | Effect _ => None end)
       out.

(** The records written by a run, each with the path it was written to. *)
Definition written (out : list effect) : list (string * Read) :=
  omap (fun e => match e with WriteRecord path record => Some (path, record) | _ => None end)
       out.

Definition is_open (e : effect) : bool :=
  match e with
  | OpenWrite _ => true
  | _ => false
  end.

(** The symbol ['/'] occurs in a path. *)
Fixpoint has_slash (path : string) : bool :=
  match path with
  | EmptyString => false
  | String c rest => Ascii.eqb c "/"%char || has_slash rest
  end.

(** The symbol ['N'] occurs in a sequence. *)
Fixpoint has_N (s : string) : bool :=
  match s with
  | EmptyString => false
  | String c rest => Ascii.eqb c "N"%char || has_N rest
  end.

(** The records of a list of units, in the order of the stream. *)
Definition records_of_units (us : list Item) : list Read :=
  concat (batch_of <$> us).

Section CoverageVocabulary.
Context {H : Type} `{CountingHash H} `{Khmer H}.

(** The table seen at each yield holds the records yielded so far. *)
Definition tables_follow (h : H) (ys : list (Read * Normalizer H)) : Prop :=
  ∀ i record m, ys !! i = Some (record, m) →
    htable m = consume_all h (take (S i) ys.*1).

(** The reader of an entry of the file list. *)
Definition reader_for (args : Args) (file : string * bool) : Reader :=
  open_reader file.1 (ksize args) (force_single args) file.2.

(** The reader of a file ends with an error that [CatchIOErrors] handles. *)
Definition file_fails (args : Args) (file : string * bool) : bool :=
  match ending_of (reader_for args file) with
  | Some e => caught e
  | None => false
  end.

(** The reader of a file ends normally or with such an error. *)
Definition readable (args : Args) (file : string * bool) : Prop :=
  match ending_of (reader_for args file) with
  | Some e => caught e = true
  | None => True
  end.

(** The [Normalizer] after all the units read from a list of files. *)
Definition after_files (args : Args) (norm : Normalizer H)
    (files : list (string * bool)) : Normalizer H :=
  fold_left (fun n file => after_units n (units_read args file)) files norm.

(** The end of [main] after the loop over the files. *)
Definition closing_effects (args : Args) (norm : Normalizer H)
    (fp_rate : PrimFloat.float) (corrupt_files : list string) : list effect :=
  [Stderr (UniqueKmers (n_unique_kmers (htable norm)))]
  ++ (if bool_decide (savetable args = "") then []
      else [Stderr (SavingTo (savetable args)); SaveTable (savetable args)])
  ++ [Stderr (FpRate fp_rate)]
  ++ (if force args && (0 <? Z.of_nat (length corrupt_files))
      then [Stderr FinishedWithErrors; Stderr IOErrorsOccurred;
            Stderr (CorruptFiles corrupt_files)]
      else []).

End CoverageVocabulary.

(** A fault-tolerant command line over a good, a broken and an empty file. *)
Definition tolerant_args : Args :=
  sample_args 1 false false true None None
    ["data/reads.fa"; "broken.fq"; "empty.fa"].

(** The [Normalizer] at the end of that run: three of four records kept. *)
Definition after_tolerant_run : Normalizer ExactCounter :=
  mkNormalizer
    (exact_consume
       (exact_consume (exact_consume (new_exact_counter 4) "ACGT") "CCCC")
       "AAAA") 1 4 1.

(** A command line with a report stream whose first file is empty. *)
Definition report_args : Args :=
  sample_args 10 false false false (Some "report.txt") None
    ["empty.fa"; "data/reads.fa"].

(** * Verification *)

(** ** The normalizer, one unit at a time *)

Section NormalizerFacts.
Context {H : Type} `{CountingHash H}.
Implicit Types (n : Normalizer H) (u : Item) (batch : list Read).

Lemma filter_fold_acc h dc batch acc :
  fold_left
    (fun passed_filter record =>
       if median_of h record <? dc then true else passed_filter)
    batch acc
  = acc || existsb (fun record => median_of h record <? dc) batch.
Proof.
  revert acc. induction batch as [|r batch IH]; intros acc; simpl.
  - by rewrite orb_false_r.
  - rewrite IH. destruct (median_of h r <? dc), acc; reflexivity.
Qed.

Lemma filter_batch_true h dc batch :
  filter_batch h dc batch = true ↔ some_below h dc batch.
Proof.
  unfold filter_batch, some_below. rewrite filter_fold_acc. simpl.
  rewrite existsb_exists. split.
  - intros (r & Hin & Hlt). exists r. split.
    + by apply list_elem_of_In.
    + by apply Z.ltb_lt.
  - intros (r & Hin & Hlt). exists r. split.
    + by apply list_elem_of_In.
    + by apply Z.ltb_lt.
Qed.

Lemma filter_batch_false h dc batch :
  filter_batch h dc batch = false ↔ ¬ some_below h dc batch.
Proof.
  rewrite <- filter_batch_true. destruct (filter_batch h dc batch); split;
    intros; congruence.
Qed.

Lemma batch_length u :
  logical_unit u → Z.of_nat (length (batch_of u)) = unit_size u.
Proof.
  unfold logical_unit, batch_of, unit_size. intros ->.
  destruct (read1 u) as [r|]; reflexivity.
Qed.

Lemma unit_size_pos u : 1 ≤ unit_size u.
Proof. unfold unit_size. destruct (is_paired u); lia. Qed.

(** *** The consuming loop *)

Lemma consume_batch_records n batch : (consume_batch n batch).1.*1 = batch.
Proof.
  revert n. induction batch as [|r batch IH]; intros n; simpl; [done|].
  specialize (IH (set_htable n (consume (htable n) (seq_of r)))).
  destruct (consume_batch _ batch) as [ys n2]. simpl in *. by f_equal.
Qed.

Lemma consume_batch_final n batch :
  (consume_batch n batch).2 = set_htable n (consume_all (htable n) batch).
Proof.
  revert n. induction batch as [|r batch IH]; intros n; simpl.
  - by destruct n.
  - specialize (IH (set_htable n (consume (htable n) (seq_of r)))).
    destruct (consume_batch _ batch) as [ys n2]. simpl in *. by rewrite IH.
Qed.

(** While the generator is suspended in the consuming loop, the counters
    are those it started the loop with. *)
Lemma consume_batch_snapshots n batch :
  Forall (fun y => total y.2 = total n ∧ discarded y.2 = discarded n
                   ∧ desired_coverage y.2 = desired_coverage n)
         (consume_batch n batch).1.
Proof.
  revert n. induction batch as [|r batch IH]; intros n; simpl; [constructor|].
  specialize (IH (set_htable n (consume (htable n) (seq_of r)))).
  destruct (consume_batch _ batch) as [ys n2]. simpl in *.
  constructor; [done|]. exact IH.
Qed.

(** *** One iteration of [Normalizer.__call__] *)

Lemma call_unit_counted n u :
  (if is_paired u then add_total (add_total n 1) 1 else add_total n 1)
  = counted n u.
Proof.
  unfold counted, unit_size, add_total. destruct (is_paired u); simpl;
    f_equal; lia.
Qed.

Lemma call_unit_kept n u :
  some_below (htable n) (desired_coverage n) (batch_of u) →
  call_unit n u = consume_batch (counted n u) (batch_of u).
Proof.
  intros Hb. unfold call_unit. rewrite call_unit_counted.
  apply filter_batch_true in Hb. simpl. by rewrite Hb.
Qed.

Lemma call_unit_discarded n u :
  ¬ some_below (htable n) (desired_coverage n) (batch_of u) →
  call_unit n u
  = ([], add_discarded (counted n u) (Z.of_nat (length (batch_of u)))).
Proof.
  intros Hb. unfold call_unit. rewrite call_unit_counted.
  apply filter_batch_false in Hb. simpl. by rewrite Hb.
Qed.

Lemma some_below_dec h dc batch : Decision (some_below h dc batch).
Proof.
  destruct (filter_batch h dc batch) eqn:E.
  - left. by apply filter_batch_true.
  - right. by apply filter_batch_false.
Defined.

Lemma call_unit_total n u : total (call_unit n u).2 = total n + unit_size u.
Proof.
  destruct (some_below_dec (htable n) (desired_coverage n) (batch_of u)).
  - rewrite call_unit_kept, consume_batch_final by done. reflexivity.
  - rewrite call_unit_discarded by done. reflexivity.
Qed.

Lemma call_unit_desired_coverage n u :
  desired_coverage (call_unit n u).2 = desired_coverage n.
Proof.
  destruct (some_below_dec (htable n) (desired_coverage n) (batch_of u)).
  - rewrite call_unit_kept, consume_batch_final by done. reflexivity.
  - rewrite call_unit_discarded by done. reflexivity.
Qed.

Lemma call_unit_discarded_cases n u :
  (discarded (call_unit n u).2 = discarded n ∧ (call_unit n u).1 ≠ [])
  ∨ (discarded (call_unit n u).2
     = discarded n + Z.of_nat (length (batch_of u))
     ∧ (call_unit n u).1 = []).
Proof.
  destruct (some_below_dec (htable n) (desired_coverage n) (batch_of u)).
  - left. rewrite call_unit_kept by done. rewrite consume_batch_final.
    split; [reflexivity|]. intros E.
    pose proof (consume_batch_records (counted n u) (batch_of u)) as Hr.
    rewrite E in Hr. discriminate Hr.
  - right. rewrite call_unit_discarded by done. done.
Qed.

Lemma call_unit_counters_ok n u :
  logical_unit u → counters_ok n → counters_ok (call_unit n u).2.
Proof.
  intros Hu [Hlo Hhi]. unfold counters_ok. rewrite call_unit_total.
  pose proof (unit_size_pos u).
  destruct (call_unit_discarded_cases n u) as [[-> _]|[-> _]].
  - lia.
  - rewrite batch_length by done. lia.
Qed.

Lemma call_unit_snapshots n u :
  Forall (fun y => total y.2 = total n + unit_size u
                   ∧ discarded y.2 = discarded n
                   ∧ desired_coverage y.2 = desired_coverage n)
         (call_unit n u).1.
Proof.
  destruct (some_below_dec (htable n) (desired_coverage n) (batch_of u)).
  - rewrite call_unit_kept by done.
    exact (consume_batch_snapshots (counted n u) (batch_of u)).
  - rewrite call_unit_discarded by done. constructor.
Qed.

End NormalizerFacts.

(** ** The normalizer over a whole stream *)

Section StreamFacts.
Context {H : Type} `{CountingHash H}.
Implicit Types (n : Normalizer H) (u : Item) (us : list Item).

Lemma Normalizer_call_final n reader :
  final (Normalizer_call n reader) = after_units n (units_of reader).
Proof.
  revert n. induction reader as [|u rest IH|e]; intros n; simpl; try done.
  change (after_units n (u :: units_of rest))
    with (after_units (call_unit n u).2 (units_of rest)).
  destruct (call_unit n u) as [ys n']. simpl. apply IH.
Qed.

Lemma Normalizer_call_raised n reader :
  raised (Normalizer_call n reader) = ending_of reader.
Proof.
  revert n. induction reader as [|u rest IH|e]; intros n; simpl; try done.
  destruct (call_unit n u) as [ys n']. simpl. apply IH.
Qed.

Lemma ending_of_list us : ending_of (reader_of_list us) = None.
Proof. induction us as [|u us IH]; [reflexivity|exact IH]. Qed.

Lemma reader_of_list_cons u us :
  reader_of_list (u :: us) = ReaderItem u (reader_of_list us).
Proof. reflexivity. Qed.

Lemma Normalizer_call_cons n u rest :
  Normalizer_call n (ReaderItem u rest)
  = mkRun ((call_unit n u).1 ++ yielded (Normalizer_call (call_unit n u).2 rest))
      (raised (Normalizer_call (call_unit n u).2 rest))
      (final (Normalizer_call (call_unit n u).2 rest)).
Proof. cbn [Normalizer_call]. by destruct (call_unit n u). Qed.

Lemma Normalizer_call_item n u rest :
  yielded (Normalizer_call n (ReaderItem u rest))
  = (call_unit n u).1 ++ yielded (Normalizer_call (call_unit n u).2 rest).
Proof. simpl. by destruct (call_unit n u). Qed.

Lemma after_units_cons n u us :
  after_units n (u :: us) = after_units (call_unit n u).2 us.
Proof. reflexivity. Qed.

Lemma after_units_app n us1 us2 :
  after_units n (us1 ++ us2) = after_units (after_units n us1) us2.
Proof. unfold after_units. by rewrite fold_left_app. Qed.

Lemma after_units_total n us :
  total (after_units n us) = total n + records_in us.
Proof.
  revert n. induction us as [|u us IH]; intros n.
  - simpl. lia.
  - rewrite after_units_cons, IH, call_unit_total. simpl. lia.
Qed.

Lemma after_units_desired_coverage n us :
  desired_coverage (after_units n us) = desired_coverage n.
Proof.
  revert n. induction us as [|u us IH]; intros n; [done|].
  by rewrite after_units_cons, IH, call_unit_desired_coverage.
Qed.

Lemma records_in_nonneg us : 0 ≤ records_in us.
Proof.
  induction us as [|u us IH]; simpl; [lia|].
  pose proof (unit_size_pos u). lia.
Qed.

Lemma records_in_app us1 us2 :
  records_in (us1 ++ us2) = records_in us1 + records_in us2.
Proof. induction us1 as [|u us1 IH]; simpl; lia. Qed.

Lemma call_unit_discarded_mono n u :
  discarded n ≤ discarded (call_unit n u).2.
Proof.
  destruct (call_unit_discarded_cases n u) as [[-> _]|[-> _]]; lia.
Qed.

Lemma after_units_discarded_mono n us :
  discarded n ≤ discarded (after_units n us).
Proof.
  revert n. induction us as [|u us IH]; intros n; [simpl; lia|].
  rewrite after_units_cons. pose proof (call_unit_discarded_mono n u).
  specialize (IH (call_unit n u).2). lia.
Qed.

Lemma after_units_counters_ok n us :
  Forall logical_unit us → counters_ok n → counters_ok (after_units n us).
Proof.
  intros Hus. revert n. induction Hus as [|u us Hu _ IH]; intros n Hn; [done|].
  rewrite after_units_cons. apply IH. by apply call_unit_counters_ok.
Qed.

(** Every record is yielded after its unit was counted. *)
Lemma Normalizer_call_snapshots_total n reader :
  Forall (fun y => total n < total y.2) (yielded (Normalizer_call n reader)).
Proof.
  revert n. induction reader as [|u rest IH|e]; intros n;
    [constructor| |constructor].
  rewrite Normalizer_call_item. apply Forall_app. split.
  - eapply Forall_impl; [apply call_unit_snapshots|].
    intros y (Ht & _). pose proof (unit_size_pos u). simpl in *. lia.
  - eapply Forall_impl; [apply IH|].
    intros y Hy. simpl in Hy. rewrite call_unit_total in Hy.
    pose proof (unit_size_pos u). lia.
Qed.

Lemma Normalizer_call_snapshots_ok n us :
  Forall logical_unit us → counters_ok n →
  Forall (fun y => counters_ok y.2)
         (yielded (Normalizer_call n (reader_of_list us))).
Proof.
  intros Hus. revert n. induction Hus as [|u us Hu _ IH]; intros n Hn;
    [constructor|].
  simpl reader_of_list. rewrite Normalizer_call_item. apply Forall_app. split.
  - eapply Forall_impl; [apply call_unit_snapshots|].
    intros y (Ht & Hd & _). destruct Hn as [Hlo Hhi]. unfold counters_ok.
    pose proof (unit_size_pos u). simpl in *. lia.
  - apply IH. by apply call_unit_counters_ok.
Qed.

End StreamFacts.

(** ** Keeping and discarding units *)

Section Decision.
Context {H : Type} `{CountingHash H}.
Implicit Types (n : Normalizer H) (u : Item).

Lemma batch_nonempty u : batch_of u ≠ [].
Proof. unfold batch_of. discriminate. Qed.

(** The records yielded over a whole stream are the batches of the units
    that were kept: no unit is yielded in part. *)
Lemma Normalizer_call_whole_units n reader :
  ∃ kept_units,
    sublist kept_units (units_of reader)
    ∧ (yielded (Normalizer_call n reader)).*1 = concat (batch_of <$> kept_units).
Proof.
  revert n. induction reader as [|u rest IH|e]; intros n;
    [by exists []| |by exists []].
  rewrite Normalizer_call_item, fmap_app.
  destruct (IH (call_unit n u).2) as (ks & Hsub & ->). simpl units_of.
  destruct (some_below_dec (htable n) (desired_coverage n) (batch_of u)).
  - exists (u :: ks). split; [by constructor|].
    rewrite call_unit_kept by done. by rewrite consume_batch_records.
  - exists ks. split; [by constructor|].
    by rewrite call_unit_discarded.
Qed.

(** C1. [Normalizer.__call__] keeps the logical unit it reads exactly when
    some constituent record has a median k-mer abundance, queried on the
    sequence with every 'N' replaced by 'A', strictly below the desired
    coverage.  For a kept unit the generator yields every constituent
    record in the original order and goes on with the rest of the stream
    over the table into which the substituted sequence of every
    constituent record was consumed, [discarded] unchanged; for a
    discarded unit it yields nothing, leaves the table as it was and goes
    on with the number of constituent records added to [discarded].  In
    both cases [total] has grown by the number of constituent records.  A
    pair whose mates have medians 2 and 50 is kept under cutoff 10. *)
Theorem unit_kept_iff_some_median_below_cutoff n u rest :
  logical_unit u →
  let run := Normalizer_call n (ReaderItem u rest) in
  let below := some_below (htable n) (desired_coverage n) (batch_of u) in
  let kept :=
    mkNormalizer (consume_all (htable n) (batch_of u)) (desired_coverage n)
      (total n + unit_size u) (discarded n) in
  let dropped :=
    mkNormalizer (htable n) (desired_coverage n)
      (total n + unit_size u) (discarded n + unit_size u) in
  ((yielded (Normalizer_call n (ReaderItem u ReaderStop))).*1 = batch_of u
   ↔ below)
  ∧ (below →
     (yielded run).*1 = batch_of u ++ (yielded (Normalizer_call kept rest)).*1
     ∧ Forall (fun y => total y.2 = total n + unit_size u
                        ∧ discarded y.2 = discarded n)
         (take (length (batch_of u)) (yielded run))
     ∧ raised run = raised (Normalizer_call kept rest)
     ∧ final run = final (Normalizer_call kept rest))
  ∧ (¬ below → run = Normalizer_call dropped rest)
  ∧ (∀ r1, read1 u = Some r1 →
       median_of (htable n) (read0 u) = 2 →
       median_of (htable n) r1 = 50 →
       desired_coverage n = 10 →
       (yielded run).*1
       = [read0 u; r1] ++ (yielded (Normalizer_call kept rest)).*1).
Proof.
  intros Hu run below kept dropped.
  assert (Hkept : below →
    (call_unit n u).1.*1 = batch_of u ∧ (call_unit n u).2 = kept).
  { intros Hb. rewrite call_unit_kept by exact Hb.
    rewrite consume_batch_records, consume_batch_final. done. }
  assert (Hdisc : ¬ below → call_unit n u = ([], dropped)).
  { intros Hb. rewrite call_unit_discarded by exact Hb.
    rewrite (batch_length u Hu). done. }
  assert (Hk : ∀ rest0, below →
    (yielded (Normalizer_call n (ReaderItem u rest0))).*1
    = batch_of u ++ (yielded (Normalizer_call kept rest0)).*1
    ∧ Forall (fun y => total y.2 = total n + unit_size u
                       ∧ discarded y.2 = discarded n)
        (take (length (batch_of u))
           (yielded (Normalizer_call n (ReaderItem u rest0))))
    ∧ raised (Normalizer_call n (ReaderItem u rest0))
      = raised (Normalizer_call kept rest0)
    ∧ final (Normalizer_call n (ReaderItem u rest0))
      = final (Normalizer_call kept rest0)).
  { intros rest0 Hb. destruct (Hkept Hb) as (Hys & Hn').
    rewrite Normalizer_call_cons. cbn [yielded raised final].
    rewrite fmap_app, Hys, Hn'. split; [done|split; [|done]].
    assert (Hlen : length (batch_of u) = length (call_unit n u).1)
      by (by rewrite <- Hys, length_fmap).
    rewrite Hlen, take_app_length.
    eapply Forall_impl; [apply call_unit_snapshots|].
    intros y (? & ? & _). done. }
  assert (Hd : ∀ rest0, ¬ below →
    Normalizer_call n (ReaderItem u rest0) = Normalizer_call dropped rest0).
  { intros rest0 Hb. rewrite Normalizer_call_cons, (Hdisc Hb).
    cbn [fst snd app]. by destruct (Normalizer_call dropped rest0). }
  split; [|split; [exact (Hk rest)|split; [exact (Hd rest)|]]].
  - split.
    + intros Hys.
      destruct (some_below_dec (htable n) (desired_coverage n) (batch_of u))
        as [Hb|Hb]; [exact Hb|].
      rewrite (Hd ReaderStop Hb) in Hys. simpl in Hys.
      symmetry in Hys. by apply batch_nonempty in Hys.
    + intros Hb. destruct (Hk ReaderStop Hb) as (Hys & _).
      rewrite Hys. simpl. by rewrite app_nil_r.
  - intros r1 Hr1 Hm0 Hm1 Hdc.
    assert (Hb : below).
    { exists (read0 u). split; [unfold batch_of; left|lia]. }
    destruct (Hk rest Hb) as (Hys & _). fold run in Hys. rewrite Hys.
    unfold batch_of at 1. by rewrite Hr1.
Qed.


(** A stream with one more unit at its end: the generator runs over the
    stream and then makes one more iteration. *)
Lemma Normalizer_call_snoc n (us : list Item) u :
  Normalizer_call n (reader_of_list (us ++ [u]))
  = mkRun
      (yielded (Normalizer_call n (reader_of_list us))
       ++ (call_unit (final (Normalizer_call n (reader_of_list us))) u).1)
      None
      (call_unit (final (Normalizer_call n (reader_of_list us))) u).2.
Proof.
  revert n. induction us as [|u' us IH]; intros n.
  - cbn [app]. rewrite reader_of_list_cons, Normalizer_call_cons.
    cbn [reader_of_list Normalizer_call yielded raised final app].
    by rewrite app_nil_r.
  - rewrite <- app_comm_cons, !reader_of_list_cons, !Normalizer_call_cons.
    rewrite IH. cbn [yielded raised final]. by rewrite app_assoc.
Qed.

(** C4. Over a stream, [Normalizer.__call__] first adds the number of
    constituent records of every logical unit it reads to [total], so
    that the records it yields for the unit already see the new total,
    and adds to [discarded] only when it discards the unit, by the size
    of its batch and without yielding; [0 ≤ discarded ≤ total] holds
    after every processed unit and whenever a record is yielded. *)
Theorem counters_invariant_after_every_unit n (us : list Item) :
  Forall logical_unit us →
  counters_ok n →
  let after k := final (Normalizer_call n (reader_of_list (take k us))) in
  let seen k := yielded (Normalizer_call n (reader_of_list (take k us))) in
  (∀ k, counters_ok (after k)
        ∧ total (after k) = total n + records_in (take k us))
  ∧ (∀ k u, us !! k = Some u →
       total (after (S k)) = total (after k) + unit_size u
       ∧ ∃ ys, seen (S k) = seen k ++ ys
           ∧ Forall (fun y => total y.2 = total (after k) + unit_size u
                              ∧ discarded y.2 = discarded (after k)) ys
           ∧ ((ys.*1 = batch_of u
               ∧ discarded (after (S k)) = discarded (after k))
              ∨ (ys = []
                 ∧ discarded (after (S k))
                   = discarded (after k) + unit_size u)))
  ∧ Forall (fun y => counters_ok y.2)
           (yielded (Normalizer_call n (reader_of_list us)))
  ∧ counters_ok (final (Normalizer_call n (reader_of_list us)))
  ∧ total (final (Normalizer_call n (reader_of_list us)))
    = total n + records_in us.
Proof.
  intros Hus Hn after seen.
  assert (Hfin : ∀ vs, Forall logical_unit vs →
    counters_ok (final (Normalizer_call n (reader_of_list vs)))
    ∧ total (final (Normalizer_call n (reader_of_list vs)))
      = total n + records_in vs).
  { intros vs Hvs. rewrite Normalizer_call_final.
    assert (Hvs' : units_of (reader_of_list vs) = vs).
    { clear. induction vs as [|v vs IH]; [done|]. simpl. by rewrite IH. }
    rewrite Hvs'. split; [by apply after_units_counters_ok|].
    apply after_units_total. }
  split; [|split; [|split]].
  - intros k. unfold after. apply Hfin. by apply Forall_take.
  - intros k u Hk.
    assert (Hu : logical_unit u).
    { rewrite Forall_forall in Hus. apply Hus.
      by apply (list_elem_of_lookup_2 us k). }
    unfold after, seen. rewrite (take_S_r us k u Hk), Normalizer_call_snoc.
    cbn [yielded final].
    set (m := final (Normalizer_call n (reader_of_list (take k us)))).
    split; [apply call_unit_total|].
    exists (call_unit m u).1. split; [reflexivity|split].
    + eapply Forall_impl; [apply call_unit_snapshots|].
      intros y (? & ? & _). done.
    + destruct (some_below_dec (htable m) (desired_coverage m) (batch_of u))
        as [Hb|Hb].
      * left. rewrite call_unit_kept by exact Hb.
        rewrite consume_batch_records, consume_batch_final. done.
      * right. rewrite call_unit_discarded by exact Hb.
        rewrite (batch_length u Hu). done.
  - by apply Normalizer_call_snapshots_ok.
  - by apply Hfin.
Qed.

End Decision.

(** ** The diagnostics generator *)

Section DiagnosticsFacts.
Context {H : Type} `{CountingHash H}.
Implicit Types (n norm : Normalizer H) (ys : list (Read * Normalizer H)).

Lemma perc_ok d t : t ≠ 0 → perc d t = Ok (kept_percentage d t).
Proof.
  intros Ht. unfold perc, div_float.
  destruct (t =? 0) eqn:E; [apply Z.eqb_eq in E; contradiction|].
  reflexivity.
Qed.

Lemma perc_zero d :
  perc d 0 = Raise (ZeroDivisionError "float division by zero").
Proof. reflexivity. Qed.

Lemma discarded_fraction_zero d :
  discarded_fraction d 0 = Raise (ZeroDivisionError "float division by zero").
Proof. reflexivity. Qed.

Lemma discarded_fraction_ok d t :
  t ≠ 0 →
  discarded_fraction d t
  = Ok (PrimFloat.sub (float_of_int 1)
          (PrimFloat.div (float_of_int d) (float_of_int t))).
Proof.
  intros Ht. unfold discarded_fraction, div_float.
  destruct (t =? 0) eqn:E; [apply Z.eqb_eq in E; contradiction|].
  reflexivity.
Qed.

(** *** The periodic report *)

Lemma periodic_report_no_stream f norm :
  total norm ≠ 0 →
  periodic_report f None norm = (progress_lines f norm, Ok tt).
Proof.
  intros Ht. unfold periodic_report. rewrite perc_ok by exact Ht.
  reflexivity.
Qed.

Lemma periodic_report_stream f fp norm :
  total norm ≠ 0 →
  periodic_report f (Some fp) norm
  = (progress_lines f norm, Raise (NameError "total")).
Proof.
  intros Ht. unfold periodic_report. rewrite perc_ok by exact Ht.
  reflexivity.
Qed.

Lemma progress_due_code index :
  (index >? 0) && (index mod 100000 =? 0) = progress_due index.
Proof. unfold progress_due. by rewrite Z.gtb_ltb. Qed.

Lemma progress_due_small index :
  0 ≤ index < 100000 → progress_due index = false.
Proof.
  intros Hi. unfold progress_due.
  destruct (0 <? index) eqn:E; [|reflexivity]. apply Z.ltb_lt in E.
  rewrite Z.mod_small by lia. simpl. apply Z.eqb_neq. lia.
Qed.

Lemma progress_due_100000 : progress_due 100000 = true.
Proof. reflexivity. Qed.

(** *** The loop *)

Lemma diagnostics_loop_cons f fp index record norm ys :
  diagnostics_loop f fp index ((record, norm) :: ys)
  = match (if progress_due index then periodic_report f fp norm
           else act_ret tt) with
    | (out, Raise e) => (out, Some (e, norm))
    | (out, Ok _) =>
        (out ++ YieldRecord record :: (diagnostics_loop f fp (index + 1) ys).1,
         (diagnostics_loop f fp (index + 1) ys).2)
    end.
Proof.
  simpl. rewrite progress_due_code.
  destruct (if progress_due index then _ else _) as [out [[]|e]];
    [|reflexivity].
  by destruct (diagnostics_loop f fp (index + 1) ys).
Qed.

(** Without a report stream the loop never raises: every record is
    yielded, after the progress lines that are due at its index. *)
Lemma diagnostics_loop_no_stream f (k : nat) ys :
  Forall (fun y => total y.2 ≠ 0) ys →
  diagnostics_loop f None (Z.of_nat k) ys
  = (concat (imap (fun i => at_record f (k + i)) ys), None).
Proof.
  intros Hys. revert k. induction Hys as [|[record norm] ys Hy _ IH];
    intros k; [reflexivity|].
  rewrite diagnostics_loop_cons. simpl in Hy.
  replace (Z.of_nat k + 1) with (Z.of_nat (S k)) by lia. rewrite IH.
  rewrite imap_cons, concat_cons, Nat.add_0_r.
  assert (Hext : imap ((fun i => at_record f (k + i)) ∘ S) ys
                 = imap (fun i => at_record f (S k + i)) ys).
  { apply imap_ext. intros i y _. simpl. f_equal. lia. }
  rewrite Hext.
  change (at_record f k (record, norm))
    with ((if progress_due (Z.of_nat k) then progress_lines f norm else [])
          ++ [YieldRecord record]).
  destruct (progress_due (Z.of_nat k)).
  - rewrite periodic_report_no_stream by exact Hy. cbn [fst snd].
    by rewrite <- app_assoc.
  - reflexivity.
Qed.

(** While no progress line is due, the loop only passes records on. *)
Lemma diagnostics_loop_quiet f fp index ys :
  (∀ i, (i < length ys)%nat → progress_due (index + Z.of_nat i) = false) →
  diagnostics_loop f fp index ys = (YieldRecord <$> ys.*1, None).
Proof.
  revert index. induction ys as [|[record norm] ys IH]; intros index Hq;
    [reflexivity|].
  rewrite diagnostics_loop_cons.
  assert (Hq0 : progress_due index = false).
  { specialize (Hq 0%nat). rewrite Z.add_0_r in Hq. apply Hq. simpl. lia. }
  rewrite Hq0. simpl. rewrite IH; [reflexivity|].
  intros i Hi. replace (index + 1 + Z.of_nat i) with (index + Z.of_nat (S i))
    by lia.
  apply Hq. simpl. lia.
Qed.

Lemma diagnostics_loop_app f fp index ys1 ys2 out :
  diagnostics_loop f fp index ys1 = (out, None) →
  diagnostics_loop f fp index (ys1 ++ ys2)
  = (out ++ (diagnostics_loop f fp (index + Z.of_nat (length ys1)) ys2).1,
     (diagnostics_loop f fp (index + Z.of_nat (length ys1)) ys2).2).
Proof.
  revert index out. induction ys1 as [|[record norm] ys1 IH];
    intros index out.
  - simpl. intros [= <-]. rewrite Z.add_0_r.
    by destruct (diagnostics_loop f fp index ys2).
  - rewrite <- app_comm_cons, !diagnostics_loop_cons.
    destruct (if progress_due index then _ else _) as [o [[]|e]];
      [|intros [= _ ?]; discriminate].
    destruct (diagnostics_loop f fp (index + 1) ys1) as [o1 r1] eqn:E1.
    simpl. intros [= <- ->].
    rewrite (IH (index + 1) o1 E1). simpl length.
    replace (index + 1 + Z.of_nat (length ys1))
      with (index + Z.of_nat (S (length ys1))) by lia.
    simpl. by rewrite <- app_assoc.
Qed.

(** With a report stream, the first progress report that is due ends the
    loop with [NameError], after its two lines on the log stream. *)
Lemma diagnostics_loop_stream_raises f fp ys record norm rest :
  length ys = Z.to_nat 100000 →
  total norm ≠ 0 →
  diagnostics_loop f (Some fp) 0 (ys ++ (record, norm) :: rest)
  = ((YieldRecord <$> ys.*1) ++ progress_lines f norm,
     Some (NameError "total", norm)).
Proof.
  intros Hlen Ht.
  rewrite (diagnostics_loop_app _ _ _ _ _ (YieldRecord <$> ys.*1)).
  - rewrite Hlen, Z2Nat.id by lia. rewrite Z.add_0_l.
    rewrite diagnostics_loop_cons, progress_due_100000.
    rewrite periodic_report_stream by exact Ht. reflexivity.
  - apply diagnostics_loop_quiet. intros i Hi.
    apply progress_due_small. lia.
Qed.

End DiagnosticsFacts.

(** ** The diagnostics generator over a whole file *)

Section FileFacts.
Context {H : Type} `{CountingHash H}.
Implicit Types (n norm : Normalizer H) (ys : list (Read * Normalizer H)).

Lemma per_file_report_zero f fp norm :
  total norm = 0 →
  per_file_report f fp norm
  = ([Effect (Stderr (SkippedEmpty f))],
     match fp with
     | Some _ => Raise (ZeroDivisionError "float division by zero")
     | None => Ok tt
     end).
Proof.
  intros Ht. unfold per_file_report. rewrite Ht.
  destruct fp; reflexivity.
Qed.

Lemma per_file_report_nonzero f fp norm :
  total norm ≠ 0 →
  per_file_report f fp norm = (closing_lines f fp norm, Ok tt).
Proof.
  intros Ht. unfold per_file_report, closing_lines.
  destruct (total norm =? 0) eqn:E; [apply Z.eqb_eq in E; contradiction|].
  rewrite perc_ok by exact Ht. simpl.
  destruct fp; [|reflexivity].
  by rewrite discarded_fraction_ok.
Qed.

Lemma snapshots_nonzero norm reader :
  0 ≤ total norm →
  Forall (fun y => total y.2 ≠ 0) (yielded (Normalizer_call norm reader)).
Proof.
  intros Hn. eapply Forall_impl; [apply Normalizer_call_snapshots_total|].
  intros y Hy. simpl in Hy. lia.
Qed.

(** Without a report stream. *)
Lemma WithDiagnostics_no_stream f norm reader :
  0 ≤ total norm →
  let r := Normalizer_call norm reader in
  WithDiagnostics f norm reader None
  = mkRun (concat (imap (at_record f) (yielded r))
           ++ match ending_of reader with
              | Some _ => []
              | None => closing_lines f None (final r)
              end)
          (ending_of reader) (final r).
Proof.
  intros Hn r. unfold WithDiagnostics. fold r.
  assert (Hloop : diagnostics_loop f None 0 (yielded r)
                  = (concat (imap (at_record f) (yielded r)), None)).
  { exact (diagnostics_loop_no_stream f 0 (yielded r)
             (snapshots_nonzero norm reader Hn)). }
  rewrite Hloop.
  unfold r at 1. rewrite Normalizer_call_raised.
  destruct (ending_of reader) as [e|]; [by rewrite app_nil_r|].
  destruct (decide (total (final r) = 0)) as [Hz|Hnz].
  - rewrite per_file_report_zero by exact Hz.
    unfold closing_lines. by rewrite Hz.
  - by rewrite per_file_report_nonzero.
Qed.

(** A file without records. *)
Lemma WithDiagnostics_empty f norm fp :
  WithDiagnostics f norm ReaderStop fp
  = match per_file_report f fp norm with
    | (out, Ok _) => mkRun out None norm
    | (out, Raise e) => mkRun out (Some e) norm
    end.
Proof. unfold WithDiagnostics. simpl. by destruct (per_file_report f fp norm) as [? []]. Qed.

(** *** Where the progress lines are *)

Lemma progress_indices_app seen out1 out2 :
  progress_indices seen (out1 ++ out2)
  = progress_indices seen out1
    ++ progress_indices (seen + Z.of_nat (length (List.filter is_yield out1))) out2.
Proof.
  revert seen. induction out1 as [|d out1 IH]; intros seen.
  - simpl. by rewrite Z.add_0_r.
  - simpl. destruct (is_progress d) eqn:Ep.
    + assert (is_yield d = false) as -> by (by destruct d as [[[]| | | | | |]|]).
      simpl. by rewrite IH.
    + destruct (is_yield d); rewrite IH; [|done].
      simpl length. do 2 f_equal. lia.
Qed.

Lemma progress_indices_at_record f seen (i : nat) (y : Read * Normalizer H) :
  progress_indices seen (at_record f i y)
  = if progress_due (Z.of_nat i) then [seen] else [].
Proof. unfold at_record. by destruct (progress_due (Z.of_nat i)). Qed.

Lemma yields_at_record f (i : nat) (y : Read * Normalizer H) :
  length (List.filter is_yield (at_record f i y)) = 1%nat.
Proof. unfold at_record. by destruct (progress_due (Z.of_nat i)). Qed.

Lemma yields_of_records f (k : nat) ys :
  length (List.filter is_yield (concat (imap (fun i => at_record f (k + i)) ys)))
  = length ys.
Proof.
  revert k. induction ys as [|y ys IH]; intros k; [reflexivity|].
  rewrite imap_cons, concat_cons, List.filter_app, length_app.
  rewrite yields_at_record. simpl. f_equal.
  rewrite <- (IH (S k)). do 3 f_equal. apply imap_ext.
  intros i z _. simpl. f_equal. lia.
Qed.

Lemma progress_indices_records f (k : nat) ys :
  progress_indices (Z.of_nat k) (concat (imap (fun i => at_record f (k + i)) ys))
  = List.filter progress_due (Z.of_nat <$> seq k (length ys)).
Proof.
  revert k. induction ys as [|y ys IH]; intros k; [reflexivity|].
  rewrite imap_cons, concat_cons, progress_indices_app.
  rewrite progress_indices_at_record, yields_at_record, Nat.add_0_r.
  replace (Z.of_nat k + Z.of_nat 1) with (Z.of_nat (S k)) by lia.
  assert (Hext : imap ((fun i => at_record f (k + i)) ∘ S) ys
                 = imap (fun i => at_record f (S k + i)) ys).
  { apply imap_ext. intros i z _. simpl. f_equal. lia. }
  rewrite Hext, IH. simpl.
  by destruct (progress_due (Z.of_nat k)).
Qed.

Lemma progress_indices_closing f fp norm seen :
  progress_indices seen (closing_lines f fp norm) = [].
Proof.
  unfold closing_lines. destruct (total norm =? 0); [reflexivity|].
  by destruct fp.
Qed.

(** The progress lines of a file read without a report stream. *)
Lemma progress_indices_no_stream f norm reader :
  0 ≤ total norm →
  progress_indices 0 (yielded (WithDiagnostics f norm reader None))
  = List.filter progress_due
      (Z.of_nat <$> seq 0 (length (yielded (Normalizer_call norm reader)))).
Proof.
  intros Hn. rewrite WithDiagnostics_no_stream by exact Hn. simpl yielded.
  rewrite progress_indices_app.
  rewrite (progress_indices_records f 0).
  destruct (ending_of reader); [simpl; by rewrite app_nil_r|].
  by rewrite progress_indices_closing, app_nil_r.
Qed.

Lemma filter_due_quiet (a len : nat) :
  (∀ i, (a ≤ i < a + len)%nat → progress_due (Z.of_nat i) = false) →
  List.filter progress_due (Z.of_nat <$> seq a len) = [].
Proof.
  revert a. induction len as [|len IH]; intros a Hq; [reflexivity|].
  simpl. rewrite Hq by lia. apply IH. intros i Hi. apply Hq. lia.
Qed.

(** Among the first 100,001 indices only 100000 has a progress line. *)
Lemma filter_due_100001 :
  List.filter progress_due (Z.of_nat <$> seq 0 (S (Z.to_nat 100000)))
  = [100000].
Proof.
  rewrite <- Nat.add_1_r, seq_app, fmap_app, List.filter_app.
  rewrite filter_due_quiet.
  - change (List.filter progress_due (Z.of_nat <$> seq (0 + Z.to_nat 100000) 1))
      with (if progress_due (Z.of_nat (Z.to_nat 100000))
            then [Z.of_nat (Z.to_nat 100000)] else []).
    rewrite Z2Nat.id by lia. by rewrite progress_due_100000.
  - intros i Hi. apply progress_due_small. lia.
Qed.

End FileFacts.

(** ** Claims about the diagnostics *)

Section DiagnosticsClaims.
Context {H : Type} `{CountingHash H}.
Implicit Types (n norm : Normalizer H) (ys : list (Read * Normalizer H)).

Lemma closing_lines_quiet f fp norm :
  Forall (fun d => is_progress d = false ∧ is_yield d = false)
         (closing_lines f fp norm).
Proof.
  unfold closing_lines. destruct (total norm =? 0); [by repeat constructor|].
  destruct fp; by repeat constructor.
Qed.

(** C7, as the code has it.  Without a report stream, the progress lines
    of a file are printed for the records that the normalizer yields:
    the record with 0-based index [i] among the records kept from the
    current file is preceded by a progress line, with the cumulative kept
    count, total and percentage and the filename, exactly when [i] is a
    positive multiple of 100000.  A file from which 100,001 records are
    kept has exactly one progress line, at index 100000. *)
Theorem progress_line_every_100000th_kept_record f norm reader :
  0 ≤ total norm →
  let ys := yielded (Normalizer_call norm reader) in
  let out := yielded (WithDiagnostics f norm reader None) in
  (∃ closing,
      out = concat (imap (at_record f) ys) ++ closing
      ∧ Forall (fun d => is_progress d = false ∧ is_yield d = false) closing)
  ∧ progress_indices 0 out
    = List.filter progress_due (Z.of_nat <$> seq 0 (length ys))
  ∧ (length ys = S (Z.to_nat 100000) →
     progress_indices 0 out = [100000]
     ∧ ∃ record n,
         ys !! Z.to_nat 100000 = Some (record, n)
         ∧ at_record f (Z.to_nat 100000) (record, n)
           = progress_lines f n ++ [YieldRecord record]).
Proof.
  intros Hn ys out. split; [|split].
  - subst out. rewrite WithDiagnostics_no_stream by exact Hn. simpl yielded.
    eexists. split; [reflexivity|].
    destruct (ending_of reader); [constructor|apply closing_lines_quiet].
  - subst out ys. by apply progress_indices_no_stream.
  - intros Hlen. split.
    + subst out ys. rewrite progress_indices_no_stream by exact Hn.
      rewrite Hlen. apply filter_due_100001.
    + destruct (lookup_lt_is_Some_2 ys (Z.to_nat 100000)) as [[record n] Hy];
        [lia|].
      exists record, n. split; [exact Hy|].
      unfold at_record. rewrite Z2Nat.id by lia.
      by rewrite progress_due_100000.
Qed.

(** C8.  With a report stream, the periodic diagnostic point does not
    append a record to the stream: at the first record whose index is a
    multiple of 100000 the two progress lines are printed and the write
    to the stream raises [NameError], which ends the generator before
    that record is yielded. *)
Theorem periodic_report_to_stream_raises f fp norm reader :
  0 ≤ total norm →
  (Z.to_nat 100000 < length (yielded (Normalizer_call norm reader)))%nat →
  let ys := yielded (Normalizer_call norm reader) in
  let run := WithDiagnostics f norm reader (Some fp) in
  ∃ record n,
    ys !! Z.to_nat 100000 = Some (record, n)
    ∧ raised run = Some (NameError "total")
    ∧ yielded run
      = (YieldRecord <$> (take (Z.to_nat 100000) ys).*1) ++ progress_lines f n
    ∧ final run = n
    ∧ Forall (fun d => ∀ t k x, d ≠ Effect (ReportLine t k x)) (yielded run).
Proof.
  intros Hn Hlen ys run.
  change (Z.to_nat 100000 < length ys)%nat in Hlen.
  destruct (lookup_lt_is_Some_2 ys (Z.to_nat 100000)) as [[record n] Hy];
    [exact Hlen|].
  exists record, n. split; [exact Hy|].
  assert (Hsplit : ys = take (Z.to_nat 100000) ys
                        ++ (record, n) :: drop (S (Z.to_nat 100000)) ys).
  { symmetry. by apply take_drop_middle. }
  assert (Hnz : total n ≠ 0).
  { pose proof (snapshots_nonzero norm reader Hn) as Hall.
    rewrite Forall_forall in Hall.
    apply (Hall (record, n)). eapply list_elem_of_lookup_2. exact Hy. }
  assert (Hrun : run = mkRun
            ((YieldRecord <$> (take (Z.to_nat 100000) ys).*1)
             ++ progress_lines f n) (Some (NameError "total")) n).
  { subst run. unfold WithDiagnostics. fold ys. rewrite Hsplit at 1.
    rewrite (diagnostics_loop_stream_raises f fp _ record n _);
      [reflexivity| |exact Hnz].
    rewrite length_take. lia. }
  rewrite Hrun. simpl. repeat split.
  apply Forall_app. split.
  - apply Forall_fmap, Forall_true. intros r t k x. simpl. discriminate.
  - unfold progress_lines. repeat constructor; intros t k x; discriminate.
Qed.

(** C9, as the code has it.  Processing a file without records leaves
    the [Normalizer], and so [total] and [discarded], unchanged.  The
    "skipped empty file" notice is printed when the total of the whole
    run is zero; after earlier records of the run the file gets a "done
    with file" summary with the cumulative figures. *)
Theorem empty_file_leaves_counters_unchanged f norm fp :
  let run := WithDiagnostics f norm ReaderStop fp in
  final run = norm
  ∧ (total norm = 0 → yielded run = [Effect (Stderr (SkippedEmpty f))])
  ∧ (total norm ≠ 0 →
     raised run = None
     ∧ yielded run
       = Effect (Stderr (summary_line f norm))
         :: match fp with Some _ => report_lines norm | None => [] end).
Proof.
  intros run. subst run. rewrite WithDiagnostics_empty. split; [|split].
  - by destruct (per_file_report f fp norm) as [? []].
  - intros Hz. rewrite per_file_report_zero by exact Hz. by destruct fp.
  - intros Hnz. rewrite per_file_report_nonzero by exact Hnz. simpl.
    split; [reflexivity|]. unfold closing_lines.
    destruct (total norm =? 0) eqn:E; [apply Z.eqb_eq in E; contradiction|].
    reflexivity.
Qed.

End DiagnosticsClaims.

(** ** How the diagnostics generator can end *)

Section EndingFacts.
Context {H : Type} `{CountingHash H}.
Implicit Types (n norm : Normalizer H) (ys : list (Read * Normalizer H)).

Lemma periodic_report_items f fp norm :
  Forall loop_item (periodic_report f fp norm).1.
Proof.
  unfold periodic_report, perc, div_float.
  destruct (total norm =? 0); [constructor|].
  destruct fp; repeat constructor.
Qed.

Lemma periodic_report_uncaught f fp norm out e :
  periodic_report f fp norm = (out, Raise e) → caught e = false.
Proof.
  unfold periodic_report, perc, div_float.
  destruct (total norm =? 0); [by intros [= _ <-]|].
  destruct fp; [by intros [= _ <-]|discriminate].
Qed.

Lemma per_file_report_uncaught f fp norm out e :
  per_file_report f fp norm = (out, Raise e) → caught e = false.
Proof.
  destruct (decide (total norm = 0)) as [Hz|Hnz].
  - rewrite per_file_report_zero by exact Hz.
    destruct fp; [by intros [= _ <-]|discriminate].
  - rewrite per_file_report_nonzero by exact Hnz. discriminate.
Qed.

Lemma diagnostics_loop_items f fp index ys :
  Forall loop_item (diagnostics_loop f fp index ys).1.
Proof.
  revert index. induction ys as [|[record norm] ys IH]; intros index;
    [constructor|].
  rewrite diagnostics_loop_cons.
  pose proof (periodic_report_items f fp norm) as Hp.
  destruct (progress_due index).
  - destruct (periodic_report f fp norm) as [out [[]|e]]; simpl in *;
      [|exact Hp].
    apply Forall_app. split; [exact Hp|]. constructor; [by intros ?|apply IH].
  - simpl. constructor; [by intros ?|apply IH].
Qed.

Lemma diagnostics_loop_uncaught f fp index ys out e n :
  diagnostics_loop f fp index ys = (out, Some (e, n)) → caught e = false.
Proof.
  revert index out. induction ys as [|[record norm] ys IH]; intros index out;
    [discriminate|].
  rewrite diagnostics_loop_cons.
  destruct (progress_due index).
  - destruct (periodic_report f fp norm) as [o [[]|e']] eqn:E.
    + destruct (diagnostics_loop f fp (index + 1) ys) as [o' r'] eqn:E'.
      simpl. intros [= _ ->]. by eapply IH.
    + intros [= _ <- _]. by eapply periodic_report_uncaught.
  - destruct (diagnostics_loop f fp (index + 1) ys) as [o' r'] eqn:E'.
    simpl. intros [= _ ->]. by eapply IH.
Qed.

(** A run of [WithDiagnostics] that ends normally went through all the
    records and printed the end-of-file lines. *)
Lemma WithDiagnostics_completed f norm reader fp :
  let run := WithDiagnostics f norm reader fp in
  raised run = None →
  ∃ loop_out,
    yielded run = loop_out ++ (per_file_report f fp (final run)).1
    ∧ (per_file_report f fp (final run)).2 = Ok tt
    ∧ Forall loop_item loop_out
    ∧ ending_of reader = None
    ∧ final run = after_units norm (units_of reader).
Proof.
  intros run. subst run. unfold WithDiagnostics.
  pose proof (diagnostics_loop_items f fp 0
                (yielded (Normalizer_call norm reader))) as Hitems.
  destruct (diagnostics_loop f fp 0 _) as [out [[e n]|]]; [discriminate|].
  rewrite Normalizer_call_raised, Normalizer_call_final.
  destruct (ending_of reader); [discriminate|].
  destruct (per_file_report f fp _) as [out' [[]|e]] eqn:E; [|discriminate].
  intros _. exists out. simpl. by rewrite E.
Qed.

(** A run that ends with an exception that [CatchIOErrors] handles was
    stopped by the reader, after all the units before the error. *)
Lemma WithDiagnostics_caught f norm reader fp e :
  let run := WithDiagnostics f norm reader fp in
  raised run = Some e → caught e = true →
  ending_of reader = Some e
  ∧ Forall loop_item (yielded run)
  ∧ final run = after_units norm (units_of reader).
Proof.
  intros run. subst run. unfold WithDiagnostics.
  pose proof (diagnostics_loop_items f fp 0
                (yielded (Normalizer_call norm reader))) as Hitems.
  destruct (diagnostics_loop f fp 0 _) as [out [[e' n]|]] eqn:Eloop.
  - simpl. intros [= ->] Hc.
    apply diagnostics_loop_uncaught in Eloop. congruence.
  - rewrite Normalizer_call_raised, Normalizer_call_final.
    destruct (ending_of reader) as [e'|].
    + simpl. intros [= ->] _. done.
    + destruct (per_file_report f fp _) as [out' [[]|e']] eqn:E;
        [discriminate|].
      simpl. intros [= ->] Hc.
      apply per_file_report_uncaught in E. congruence.
Qed.

End EndingFacts.

(** ** The loop over the files *)

Section LoopFacts.
Context {H : Type} `{CountingHash H} `{Khmer H}.
Implicit Types (n norm : Normalizer H) (args : Args).

Lemma act_bind_ok {O A B} (out : list O) (a : A) (k : A → Act O B) :
  act_bind (out, Ok a) k = (out ++ (k a).1, (k a).2).
Proof. unfold act_bind. by destruct (k a). Qed.

(** One step of the loop, by the way the file ends. *)
Lemma process_files_cons args norm c f rp rest :
  let output_name := output_name_of args f in
  let r := normalize_file args norm f rp output_name in
  process_files args norm c ((f, rp) :: rest)
  = match raised r with
    | None =>
        (OpenWrite output_name :: yielded r
           ++ (process_files args (final r) c rest).1,
         (process_files args (final r) c rest).2)
    | Some e =>
        if caught e then
          if force args then
            (OpenWrite output_name :: yielded r
               ++ [Stderr (ErrorLine (str_of_exn e)); Stderr (FailedOn f)]
               ++ removal args output_name
               ++ Stderr SkippingErrorFile
                  :: (process_files args (final r) (c ++ [f]) rest).1,
             (process_files args (final r) (c ++ [f]) rest).2)
          else
            (OpenWrite output_name :: yielded r
               ++ [Stderr (ErrorLine (str_of_exn e)); Stderr (FailedOn f)]
               ++ removal args output_name ++ [Stderr Exiting],
             Raise (SystemExit 1))
        else (OpenWrite output_name :: yielded r, Raise e)
    end.
Proof.
  intros output_name r. cbn [process_files]. fold output_name. fold r.
  unfold emit at 1. rewrite act_bind_ok. unfold CatchIOErrors, removal.
  destruct (raised r) as [e|].
  - destruct (caught e); [|reflexivity].
    destruct (single_output_file args), (force args); cbn;
      repeat (rewrite <- ?app_assoc; cbn);
      try reflexivity;
      destruct (process_files args (final r) (c ++ [f]) rest); cbn;
      by rewrite <- app_assoc.
  - rewrite act_bind_ok. cbn.
    by destruct (process_files args (final r) c rest).
Qed.

Lemma normalize_file_raised args norm f rp o :
  raised (normalize_file args norm f rp o)
  = raised (WithDiagnostics f norm
              (open_reader f (ksize args) (force_single args) rp)
              (report args)).
Proof.
  unfold normalize_file.
  set (run := WithDiagnostics _ _ _ _). by destruct (raised run).
Qed.

Lemma normalize_file_final args norm f rp o :
  final (normalize_file args norm f rp o)
  = final (WithDiagnostics f norm
             (open_reader f (ksize args) (force_single args) rp)
             (report args)).
Proof.
  unfold normalize_file.
  set (run := WithDiagnostics _ _ _ _). by destruct (raised run).
Qed.

Lemma normalize_file_yielded args norm f rp o :
  yielded (normalize_file args norm f rp o)
  = (write_out o <$>
       yielded (WithDiagnostics f norm
                  (open_reader f (ksize args) (force_single args) rp)
                  (report args)))
    ++ match raised (normalize_file args norm f rp o) with
       | None => [Stderr (OutputIn o)]
       | Some _ => []
       end.
Proof.
  rewrite normalize_file_raised. unfold normalize_file.
  set (run := WithDiagnostics _ _ _ _).
  destruct (raised run); simpl; [by rewrite app_nil_r|reflexivity].
Qed.

(** After a file that ended normally or with a handled error, the
    [Normalizer] has processed all the units that were read. *)
Lemma normalize_file_final_units args norm f rp o :
  let r := normalize_file args norm f rp o in
  (raised r = None ∨ ∃ e, raised r = Some e ∧ caught e = true) →
  final r = after_units norm (units_read args (f, rp)).
Proof.
  intros r. subst r. rewrite normalize_file_raised, normalize_file_final.
  unfold units_read. simpl. intros [Hr|(e & Hr & Hc)].
  - by destruct (WithDiagnostics_completed _ _ _ _ Hr) as (? & _ & _ & _ & _ & ->).
  - by destruct (WithDiagnostics_caught _ _ _ _ _ Hr Hc) as (_ & _ & ->).
Qed.

(** The counters are never reset: a loop that comes to its end has
    added every record that was read to [total]. *)
Lemma process_files_counters args norm c files out n' c' :
  process_files args norm c files = (out, Ok (n', c')) →
  total n' = total norm + records_read args files
  ∧ discarded norm ≤ discarded n'.
Proof.
  revert norm c out. induction files as [|[f rp] files IH]; intros norm c out.
  - cbn. intros [= _ <- _]. split; lia.
  - rewrite process_files_cons.
    set (r := normalize_file args norm f rp (output_name_of args f)).
    pose proof (normalize_file_final_units args norm f rp
                  (output_name_of args f)) as Hfin. fold r in Hfin.
    assert (Hstep : final r = after_units norm (units_read args (f, rp)) →
              total (final r)
              = total norm + records_in (units_read args (f, rp))
              ∧ discarded norm ≤ discarded (final r)).
    { intros ->. rewrite after_units_total. split; [reflexivity|].
      apply after_units_discarded_mono. }
    destruct (raised r) as [e|] eqn:Er.
    + destruct (caught e) eqn:Ec; [|discriminate].
      destruct (force args); [|discriminate].
      destruct (process_files args (final r) (c ++ [f]) files)
        as [o res] eqn:E.
      simpl. intros [= _ ->].
      destruct (IH _ _ _ E) as [Ht Hd].
      destruct Hstep as [Ht' Hd']; [apply Hfin; right; by exists e|].
      simpl. split; lia.
    + destruct (process_files args (final r) c files) as [o res] eqn:E.
      simpl. intros [= _ ->].
      destruct (IH _ _ _ E) as [Ht Hd].
      destruct Hstep as [Ht' Hd']; [apply Hfin; by left|].
      simpl. split; lia.
Qed.

Lemma process_files_app args norm c files1 files2 out n1 c1 :
  process_files args norm c files1 = (out, Ok (n1, c1)) →
  process_files args norm c (files1 ++ files2)
  = (out ++ (process_files args n1 c1 files2).1,
     (process_files args n1 c1 files2).2).
Proof.
  revert norm c out. induction files1 as [|[f rp] files1 IH];
    intros norm c out.
  - cbn. intros [= <- <- <-]. by destruct (process_files args norm c files2).
  - rewrite <- app_comm_cons, !process_files_cons.
    set (r := normalize_file args norm f rp (output_name_of args f)).
    destruct (raised r) as [e|].
    + destruct (caught e); [|discriminate].
      destruct (force args); [|discriminate].
      destruct (process_files args (final r) (c ++ [f]) files1)
        as [o res] eqn:E.
      simpl. intros [= <- ->]. rewrite (IH _ _ _ E). simpl.
      f_equal. f_equal. rewrite <- !app_assoc. simpl.
      by rewrite <- !app_assoc.
    + destruct (process_files args (final r) c files1) as [o res] eqn:E.
      simpl. intros [= <- ->]. rewrite (IH _ _ _ E). simpl.
      f_equal. f_equal. by rewrite <- !app_assoc.
Qed.

End LoopFacts.

(** ** What the generators can do *)

Section KindFacts.
Context {H : Type} `{CountingHash H}.
Implicit Types (n norm : Normalizer H) (ys : list (Read * Normalizer H)).

Lemma periodic_report_kind f fp norm :
  Forall diag_kind (periodic_report f fp norm).1.
Proof.
  unfold periodic_report, perc, div_float.
  destruct (total norm =? 0); [constructor|].
  destruct fp; by repeat constructor.
Qed.

Lemma per_file_report_kind f fp norm :
  Forall diag_kind (per_file_report f fp norm).1.
Proof.
  destruct (decide (total norm = 0)) as [Hz|Hnz].
  - rewrite per_file_report_zero by exact Hz. by repeat constructor.
  - rewrite per_file_report_nonzero by exact Hnz.
    unfold closing_lines. destruct (total norm =? 0); [by repeat constructor|].
    destruct fp; by repeat constructor.
Qed.

Lemma diagnostics_loop_kind f fp index ys :
  Forall diag_kind (diagnostics_loop f fp index ys).1.
Proof.
  revert index. induction ys as [|[record norm] ys IH]; intros index;
    [constructor|].
  rewrite diagnostics_loop_cons.
  pose proof (periodic_report_kind f fp norm) as Hp.
  destruct (progress_due index).
  - destruct (periodic_report f fp norm) as [out [[]|e]]; simpl in *;
      [|exact Hp].
    apply Forall_app. split; [exact Hp|]. constructor; [done|apply IH].
  - simpl. constructor; [done|apply IH].
Qed.

Lemma WithDiagnostics_kind f norm reader fp :
  Forall diag_kind (yielded (WithDiagnostics f norm reader fp)).
Proof.
  unfold WithDiagnostics.
  pose proof (diagnostics_loop_kind f fp 0
                (yielded (Normalizer_call norm reader))) as Hl.
  destruct (diagnostics_loop f fp 0 _) as [out [[e n]|]]; [exact Hl|].
  destruct (raised _); [exact Hl|].
  pose proof (per_file_report_kind f fp
                (final (Normalizer_call norm reader))) as Hp.
  destruct (per_file_report f fp _) as [out' [[]|e]]; simpl in *;
    apply Forall_app; by split.
Qed.

Lemma records_in_zero (us : list Item) : records_in us = 0 → us = [].
Proof.
  destruct us as [|u us]; [done|]. simpl.
  pose proof (unit_size_pos u). pose proof (records_in_nonneg us). lia.
Qed.

Lemma reader_without_units reader :
  units_of reader = [] → ending_of reader = None → reader = ReaderStop.
Proof. destruct reader; simpl; congruence. Qed.

End KindFacts.

(** ** Claims about the run *)

Section RunClaims.
Context {H : Type} `{CountingHash H} `{Khmer H}.
Implicit Types (n norm : Normalizer H) (args : Args).

Lemma normalize_file_no_remove args norm f rp o :
  Forall (fun x => is_remove x = false)
         (yielded (normalize_file args norm f rp o)).
Proof.
  rewrite normalize_file_yielded. apply Forall_app. split.
  - apply Forall_fmap. eapply Forall_impl; [apply WithDiagnostics_kind|].
    intros [[]|] Hk; simpl in *; done.
  - destruct (raised _); by repeat constructor.
Qed.

Lemma check_names_ok seen paths : (check_names seen paths).2 = Ok tt.
Proof.
  revert seen. induction paths as [|p paths IH]; intros seen; [done|].
  cbn [check_names]. destruct (bool_decide _); [|apply IH].
  unfold print, emit. rewrite act_bind_ok. apply IH.
Qed.

Lemma check_names_run seen paths :
  check_names seen paths = ((check_names seen paths).1, Ok tt).
Proof.
  rewrite <- (check_names_ok seen paths). by destruct (check_names seen paths).
Qed.

(** An exception that leaves the loop over the files leaves [main]: the
    run ends there, after what the loop did. *)
Lemma main_ends_when_loop_raises args out e :
  force_single args && paired args = false →
  check_space (input_filenames args) (force args) = Ok tt →
  (if bool_decide (savetable args = "") then Ok tt
   else check_space_for_hashtable (n_tables args * min_tablesize args)
          (force args)) = Ok tt →
  process_files args (Normalizer_init (cutoff args) (initial_table args)) []
    (files_of args) = (out, Raise e) →
  (main args).2 = Raise e ∧ ∃ before, (main args).1 = before ++ out.
Proof.
  intros Hmodes Hspace Htable Hloop. unfold main. rewrite Hmodes, Hspace.
  pose proof (check_names_ok [] (input_filenames args)) as Hnames.
  destruct (check_names [] (input_filenames args)) as [warnings r].
  simpl in Hnames. subst r. unfold initial_table in Hloop.
  destruct (bool_decide (savetable args = "")), (loadtable args) as [path|];
    cbn -[process_files]; rewrite ?Htable; cbn -[process_files];
    rewrite Hloop; cbn; (split; [reflexivity|]);
    match goal with
    | |- ∃ before, ?a :: ?b :: warnings ++ ?l :: out = _ =>
        exists (a :: b :: warnings ++ [l])
    end;
    cbn; by rewrite <- app_assoc.
Qed.

(** C6.  When both single and paired mode are forced, [main] prints the
    error before anything is processed and then calls [sys.exit(0)]: the
    exit status of the process is zero. *)
Theorem both_modes_forced_exit_status args :
  force_single args = true → paired args = true →
  main args
  = ([Stderr (Info "normalize-by-median.py" ["diginorm"]);
      Stderr BothModesForced],
     Raise (SystemExit 0))
  ∧ exit_status (main args).2 = 0.
Proof.
  intros Hs Hp. unfold main. rewrite Hs, Hp. split; reflexivity.
Qed.

(** C5.  When [IOError] or [ValueError] is raised while a file is
    processed, the output file of that file is removed, unless a single
    output file is in use, which is not removed.  Without [--force] the
    run ends there with exit status 1.  With [--force] the filename is
    appended to [corrupt_files], the warning is printed and the loop goes
    on with the next file, with the [Normalizer], its table and its
    counters, as it is after the units read before the error. *)
Theorem io_error_removes_output_then_exits_or_skips
    args norm c f rp rest e :
  let output_name := output_name_of args f in
  let r := normalize_file args norm f rp output_name in
  raised r = Some e → caught e = true →
  let handled :=
    OpenWrite output_name :: yielded r
      ++ [Stderr (ErrorLine (str_of_exn e)); Stderr (FailedOn f)]
      ++ removal args output_name in
  (single_output_file args = None →
     removal args output_name = [Remove output_name])
  ∧ (is_Some (single_output_file args) →
     Forall (fun x => is_remove x = false) handled)
  ∧ final r = after_units norm (units_read args (f, rp))
  ∧ (force args = false →
     process_files args norm c ((f, rp) :: rest)
     = (handled ++ [Stderr Exiting], Raise (SystemExit 1))
     ∧ exit_status (Raise (SystemExit 1)) = 1)
  ∧ (force args = true →
     process_files args norm c ((f, rp) :: rest)
     = (handled ++ Stderr SkippingErrorFile
          :: (process_files args (final r) (c ++ [f]) rest).1,
        (process_files args (final r) (c ++ [f]) rest).2)).
Proof.
  intros output_name r Hr Hc handled.
  split; [|split; [|split; [|split]]].
  - intros Hnone. unfold removal. by rewrite Hnone.
  - intros [o Ho]. subst handled. unfold removal. rewrite Ho.
    constructor; [done|]. apply Forall_app. split.
    + apply normalize_file_no_remove.
    + by repeat constructor.
  - apply normalize_file_final_units. right. by exists e.
  - intros Hf. split; [|reflexivity].
    pose proof (process_files_cons args norm c f rp rest) as Hstep.
    cbv zeta in Hstep. fold output_name in Hstep. fold r in Hstep.
    rewrite Hr, Hc, Hf in Hstep. rewrite Hstep. subst handled.
    simpl. by rewrite <- !app_assoc.
  - intros Hf.
    pose proof (process_files_cons args norm c f rp rest) as Hstep.
    cbv zeta in Hstep. fold output_name in Hstep. fold r in Hstep.
    rewrite Hr, Hc, Hf in Hstep. rewrite Hstep. subst handled.
    simpl. by rewrite <- !app_assoc.
Qed.

Lemma records_read_app args files1 files2 :
  records_read args (files1 ++ files2)
  = records_read args files1 + records_read args files2.
Proof. induction files1 as [|file files1 IH]; simpl; lia. Qed.

(** The effects of a file that was processed to its end. *)
Lemma normalize_file_completed args norm f rp o :
  let r := normalize_file args norm f rp o in
  raised r = None →
  ∃ body,
    Forall (fun x => is_summary x = false) body
    ∧ yielded r
      = body
        ++ (if total (final r) =? 0 then [Stderr (SkippedEmpty f)]
            else Stderr (summary_line f (final r))
                 :: report_effects args (final r))
        ++ [Stderr (OutputIn o)].
Proof.
  intros r Hr. subst r. rewrite normalize_file_yielded, Hr.
  rewrite normalize_file_raised in Hr. rewrite normalize_file_final.
  destruct (WithDiagnostics_completed _ _ _ _ Hr)
    as (loop_out & Hy & Hok & Hitems & _ & _).
  exists (write_out o <$> loop_out). split.
  - apply Forall_fmap. eapply Forall_impl; [exact Hitems|].
    intros d Hd. apply Hd.
  - rewrite Hy, fmap_app, <- app_assoc. f_equal. f_equal.
    set (n := final (WithDiagnostics _ _ _ _)) in *.
    destruct (decide (total n = 0)) as [Hz|Hnz].
    + rewrite per_file_report_zero by exact Hz. rewrite Hz. reflexivity.
    + rewrite per_file_report_nonzero by exact Hnz.
      unfold closing_lines, report_effects.
      destruct (total n =? 0) eqn:E; [apply Z.eqb_eq in E; contradiction|].
      by destruct (report args).
Qed.

(** C3.  The counters are not reset between the files of a run: after
    file N the total is the number of records read from the files 1..N,
    and the summary line printed at the end of file N shows the kept
    count, the total and the percentage of these cumulative counters. *)
Theorem summary_uses_cumulative_counters
    args norm c files f rp out_before n_before c_before :
  let output_name := output_name_of args f in
  let r := normalize_file args n_before f rp output_name in
  process_files args norm c files = (out_before, Ok (n_before, c_before)) →
  raised r = None →
  total (final r) = total norm + records_read args (files ++ [(f, rp)])
  ∧ total n_before ≤ total (final r)
  ∧ discarded norm ≤ discarded n_before
  ∧ discarded n_before ≤ discarded (final r)
  ∧ ∃ body,
      Forall (fun x => is_summary x = false) body
      ∧ (process_files args norm c (files ++ [(f, rp)])).1
        = out_before ++ OpenWrite output_name :: body
          ++ (if total (final r) =? 0 then [Stderr (SkippedEmpty f)]
              else Stderr (summary_line f (final r))
                   :: report_effects args (final r))
          ++ [Stderr (OutputIn output_name)].
Proof.
  intros output_name r Hpre Hr.
  destruct (process_files_counters _ _ _ _ _ _ _ Hpre) as [Ht Hd].
  assert (Hfin : final r = after_units n_before (units_read args (f, rp))).
  { apply normalize_file_final_units. by left. }
  pose proof (records_in_nonneg (units_read args (f, rp))) as Hnn.
  split; [|split; [|split; [|split]]].
  - rewrite Hfin, after_units_total, Ht, records_read_app. simpl. lia.
  - rewrite Hfin, after_units_total. lia.
  - exact Hd.
  - rewrite Hfin. apply after_units_discarded_mono.
  - destruct (normalize_file_completed args n_before f rp output_name Hr)
      as (body & Hbody & Hy).
    exists body. split; [exact Hbody|].
    rewrite (process_files_app _ _ _ _ _ _ _ _ Hpre).
    pose proof (process_files_cons args n_before c_before f rp []) as Hstep.
    cbv zeta in Hstep. fold output_name in Hstep. fold r in Hstep.
    rewrite Hr in Hstep. rewrite Hstep. cbn [fst process_files act_ret].
    fold r in Hy. rewrite Hy, app_nil_r. reflexivity.
Qed.

(** C10.  With a report stream, a file at whose end the total of the run
    is still zero, such as an empty first file, gets the "skipped empty
    file" notice and then the end-of-file report divides by the total:
    [ZeroDivisionError] is raised, nothing is written to the report
    stream, the exception is not handled and the run ends. *)
Theorem end_of_file_report_divides_by_zero args norm c f rp rest fp :
  let reader := open_reader f (ksize args) (force_single args) rp in
  let run := WithDiagnostics f norm reader (Some fp) in
  report args = Some fp →
  0 ≤ total norm →
  ending_of reader = None →
  total (final (Normalizer_call norm reader)) = 0 →
  yielded run = [Effect (Stderr (SkippedEmpty f))]
  ∧ raised run = Some (ZeroDivisionError "float division by zero")
  ∧ process_files args norm c ((f, rp) :: rest)
    = ([OpenWrite (output_name_of args f); Stderr (SkippedEmpty f)],
       Raise (ZeroDivisionError "float division by zero"))
  ∧ exit_status (Raise (ZeroDivisionError "float division by zero")) = 1.
Proof.
  intros reader run Hfp Hn Hend Hzero.
  assert (Hstop : reader = ReaderStop).
  { apply reader_without_units; [|exact Hend].
    apply records_in_zero.
    rewrite Normalizer_call_final, after_units_total in Hzero.
    pose proof (records_in_nonneg (units_of reader)). lia. }
  assert (Hnz : total norm = 0).
  { rewrite Hstop in Hzero. exact Hzero. }
  assert (Hrun : run = mkRun [Effect (Stderr (SkippedEmpty f))]
                   (Some (ZeroDivisionError "float division by zero")) norm).
  { subst run. rewrite Hstop, WithDiagnostics_empty.
    by rewrite per_file_report_zero. }
  split; [by rewrite Hrun|split; [by rewrite Hrun|split; [|reflexivity]]].
  pose proof (process_files_cons args norm c f rp rest) as Hstep.
  cbv zeta in Hstep. rewrite Hstep.
  rewrite normalize_file_raised, normalize_file_yielded,
    normalize_file_raised.
  fold reader. rewrite Hfp. fold run. rewrite Hrun. reflexivity.
Qed.

End RunClaims.

(** ** Runs on the exact counter *)

Lemma table_after_succ j :
  table_after (S j) = exact_consume (table_after j) "ACGT".
Proof. reflexivity. Qed.

Lemma exact_consume_acgt c :
  counter_ksize c = 4%nat →
  exact_consume c "ACGT"
  = mkExactCounter 4 (<["ACGT" := kmer_count c "ACGT" + 1]> (counts c)).
Proof.
  intros Hk. unfold exact_consume. rewrite Hk.
  change (kmers 4 "ACGT") with ["ACGT"]. cbn [fold_left]. by rewrite Hk.
Qed.

Lemma table_after_spec j :
  counter_ksize (table_after j) = 4%nat
  ∧ kmer_count (table_after j) "ACGT" = Z.of_nat j.
Proof.
  induction j as [|j [IHk IHc]]; [done|].
  rewrite table_after_succ, exact_consume_acgt by exact IHk. split; [done|].
  unfold kmer_count at 1. simpl counts. rewrite lookup_insert_eq. simpl. lia.
Qed.

Lemma median_table_after j :
  median_of (table_after j) read_acgt = Z.of_nat j.
Proof.
  destruct (table_after_spec j) as [Hk Hc].
  unfold median_of. cbn [get_median_count exact_counting_hash].
  change (seq_of read_acgt) with "ACGT".
  unfold exact_median_count. rewrite Hk.
  change (kmers 4 "ACGT") with ["ACGT"]. simpl map. rewrite Hc.
  reflexivity.
Qed.

Lemma read_acgt_below j (n : Normalizer ExactCounter) i :
  htable n = table_after j →
  some_below (htable n) (desired_coverage n) (batch_of (Single i read_acgt))
  ↔ Z.of_nat j < desired_coverage n.
Proof.
  intros Ht. unfold some_below. rewrite Ht. simpl batch_of. split.
  - intros (r & Hin & Hlt). apply list_elem_of_singleton in Hin. subst r.
    by rewrite median_table_after in Hlt.
  - intros Hlt. exists read_acgt. split; [by apply list_elem_of_singleton|].
    by rewrite median_table_after.
Qed.

(** While the table is below the cutoff, every copy of the read is kept. *)
Lemma same_reads_all_kept (indices : list nat) j (n : Normalizer ExactCounter) :
  htable n = table_after j →
  Z.of_nat j + Z.of_nat (length indices) ≤ desired_coverage n →
  length (yielded (Normalizer_call n (reader_of_list (same_reads indices))))
  = length indices.
Proof.
  revert j n. induction indices as [|i indices IH]; intros j n Ht Hdc;
    [reflexivity|].
  change (same_reads (i :: indices))
    with (Single (Z.of_nat i) read_acgt :: same_reads indices).
  simpl reader_of_list. rewrite Normalizer_call_item, length_app.
  simpl length in Hdc.
  assert (Hb : some_below (htable n) (desired_coverage n)
                 (batch_of (Single (Z.of_nat i) read_acgt))).
  { apply (read_acgt_below j); [exact Ht|lia]. }
  rewrite call_unit_kept by exact Hb.
  rewrite (IH (S j)).
  - reflexivity.
  - rewrite consume_batch_final. simpl. rewrite Ht. reflexivity.
  - rewrite consume_batch_final. simpl. lia.
Qed.

(** Once the table has reached the cutoff, every copy is discarded. *)
Lemma same_reads_all_discarded (indices : list nat) j
    (n : Normalizer ExactCounter) :
  htable n = table_after j →
  desired_coverage n ≤ Z.of_nat j →
  Normalizer_call n (reader_of_list (same_reads indices))
  = mkRun [] None
      (mkNormalizer (htable n) (desired_coverage n)
         (total n + Z.of_nat (length indices))
         (discarded n + Z.of_nat (length indices))).
Proof.
  revert n. induction indices as [|i indices IH]; intros n Ht Hdc.
  - destruct n as [h dc t d]. simpl. by rewrite !Z.add_0_r.
  - change (same_reads (i :: indices))
      with (Single (Z.of_nat i) read_acgt :: same_reads indices).
    simpl reader_of_list.
    assert (Hb : ¬ some_below (htable n) (desired_coverage n)
                   (batch_of (Single (Z.of_nat i) read_acgt))).
    { rewrite (read_acgt_below j) by exact Ht. lia. }
    pose proof (call_unit_discarded n _ Hb) as Hcall.
    cbn [Normalizer_call]. rewrite Hcall.
    rewrite IH; [|exact Ht|exact Hdc].
    simpl. change (unit_size (Single (Z.of_nat i) read_acgt)) with 1.
    f_equal. f_equal; lia.
Qed.

Lemma identical_file_length : length identical_file = S (Z.to_nat 100000).
Proof. unfold identical_file, same_reads. by rewrite length_fmap, length_seq. Qed.

(** Under cutoff 200000 all the 100,001 records of the file are kept. *)
Lemma identical_file_all_kept :
  length (yielded (Normalizer_call (fresh 200000) (reader_of_list identical_file)))
  = S (Z.to_nat 100000).
Proof.
  unfold identical_file. rewrite (same_reads_all_kept _ 0).
  - apply length_seq.
  - reflexivity.
  - rewrite length_seq. simpl desired_coverage. lia.
Qed.

(** Under cutoff 1 the first record of the file is kept and the other
    100,000 records are discarded. *)
Lemma identical_file_first_kept :
  Normalizer_call (fresh 1) (reader_of_list identical_file)
  = mkRun [(read_acgt, after_first_kept 0)] None (after_first_kept 100000).
Proof.
  assert (Hfirst : call_unit (fresh 1) (Single 0 read_acgt)
                   = ([(read_acgt, after_first_kept 0)], after_first_kept 0))
    by (vm_compute; reflexivity).
  change identical_file
    with (Single 0 read_acgt :: same_reads (seq 1 (Z.to_nat 100000))).
  rewrite reader_of_list_cons, Normalizer_call_cons, Hfirst.
  cbn [fst snd].
  rewrite (same_reads_all_discarded _ 1); [|reflexivity|cbn; lia].
  rewrite length_seq, Z2Nat.id by lia. reflexivity.
Qed.

(** In a second file with the same content every record is discarded. *)
Lemma identical_file_again :
  Normalizer_call (after_first_kept 100000) (reader_of_list identical_file)
  = mkRun [] None (after_first_kept 200001).
Proof.
  unfold identical_file.
  rewrite (same_reads_all_discarded _ 1); [|reflexivity|cbn; lia].
  rewrite length_seq, Nat2Z.inj_succ, Z2Nat.id by lia. reflexivity.
Qed.

(** ** The claims on sample inputs *)

(** C1 on a stream that starts with a pair whose mates have medians 2
    and 50 under cutoff 10, followed by a read that is discarded. *)
Lemma unit_kept_witness :
  logical_unit (Pair 0 mate_a mate_c)
  ∧ median_of table_2_50 mate_a = 2
  ∧ median_of table_2_50 mate_c = 50
  ∧ (yielded (Normalizer_call norm_2_50
                (ReaderItem (Pair 0 mate_a mate_c)
                   (reader_of_list [Single 2 mate_c])))).*1
    = [mate_a; mate_c].
Proof.
  assert (Hu : logical_unit (Pair 0 mate_a mate_c)) by reflexivity.
  assert (Ha : median_of table_2_50 mate_a = 2) by (vm_compute; reflexivity).
  assert (Hc : median_of table_2_50 mate_c = 50) by (vm_compute; reflexivity).
  split; [exact Hu|split; [exact Ha|split; [exact Hc|]]].
  destruct (unit_kept_iff_some_median_below_cutoff norm_2_50
              (Pair 0 mate_a mate_c) (reader_of_list [Single 2 mate_c]) Hu)
    as (_ & _ & _ & Hs).
  etransitivity; [exact (Hs mate_c eq_refl Ha Hc eq_refl)|].
  vm_compute. reflexivity.
Defined.

(** C4 on a stream whose second unit, a pair, is discarded: after it two
    of the three records read so far are discarded. *)
Lemma counters_invariant_witness :
  Forall logical_unit discarding_stream
  ∧ counters_ok (fresh 1)
  ∧ counters_ok (final (Normalizer_call (fresh 1)
                          (reader_of_list (take 2 discarding_stream))))
  ∧ total (final (Normalizer_call (fresh 1)
                    (reader_of_list (take 2 discarding_stream)))) = 3
  ∧ discarded (final (Normalizer_call (fresh 1)
                        (reader_of_list (take 2 discarding_stream)))) = 2.
Proof.
  assert (Hus : Forall logical_unit discarding_stream)
    by (repeat constructor).
  assert (Hn : counters_ok (fresh 1)) by (split; simpl; lia).
  split; [exact Hus|split; [exact Hn|]].
  destruct (counters_invariant_after_every_unit (fresh 1) discarding_stream
              Hus Hn) as (Hinv & _).
  destruct (Hinv 2%nat) as (Hok & Htot).
  split; [exact Hok|split; [exact Htot|]].
  vm_compute. reflexivity.
Defined.

(** C7 on a file of 100,001 identical records that are all kept. *)
Lemma progress_line_witness :
  0 ≤ total (fresh 200000)
  ∧ progress_indices 0
      (yielded (WithDiagnostics "reads.fa" (fresh 200000)
                  (reader_of_list identical_file) None))
    = [100000].
Proof.
  assert (Hn : 0 ≤ total (fresh 200000)) by (simpl; lia).
  split; [exact Hn|].
  destruct (progress_line_every_100000th_kept_record "reads.fa"
              (fresh 200000) (reader_of_list identical_file) Hn)
    as (_ & _ & Hp).
  exact (proj1 (Hp identical_file_all_kept)).
Defined.

(** C7 as stated fails on two consecutive files of 100,001 identical
    records under cutoff 1: 100,001 units are processed in each file, one
    record is kept in all, and no progress line is printed. *)
Lemma identical_files_print_no_progress_line :
  let run1 :=
    WithDiagnostics "file1.fa" (fresh 1) (reader_of_list identical_file) None in
  let run2 :=
    WithDiagnostics "file2.fa" (final run1) (reader_of_list identical_file)
      None in
  yielded run1
  = [YieldRecord read_acgt; Effect (Stderr (DoneWith "file1.fa" 1 100001 0))]
  ∧ yielded run2 = [Effect (Stderr (DoneWith "file2.fa" 1 200002 0))]
  ∧ progress_indices 0 (yielded run1) = []
  ∧ progress_indices 0 (yielded run2) = []
  ∧ progress_indices 0 (yielded run1) ≠ [100000]
  ∧ progress_indices 0 (yielded run2) ≠ [100000].
Proof.
  intros run1 run2.
  assert (H1 : run1 = mkRun
            [YieldRecord read_acgt;
             Effect (Stderr (DoneWith "file1.fa" 1 100001 0))]
            None (after_first_kept 100000)).
  { subst run1. rewrite WithDiagnostics_no_stream by (simpl; lia).
    rewrite identical_file_first_kept, ending_of_list.
    vm_compute. reflexivity. }
  assert (H2 : run2 = mkRun
            [Effect (Stderr (DoneWith "file2.fa" 1 200002 0))]
            None (after_first_kept 200001)).
  { subst run2. rewrite H1. simpl final.
    rewrite WithDiagnostics_no_stream by (simpl; lia).
    rewrite identical_file_again, ending_of_list.
    vm_compute. reflexivity. }
  rewrite H1, H2. simpl. repeat split; discriminate.
Qed.

(** C8 on a file of 100,001 identical records that are all kept. *)
Lemma periodic_report_to_stream_witness :
  0 ≤ total (fresh 200000)
  ∧ (Z.to_nat 100000
     < length (yielded (Normalizer_call (fresh 200000)
                          (reader_of_list identical_file))))%nat
  ∧ raised (WithDiagnostics "reads.fa" (fresh 200000)
              (reader_of_list identical_file) (Some "report.txt"))
    = Some (NameError "total").
Proof.
  assert (Hn : 0 ≤ total (fresh 200000)) by (simpl; lia).
  assert (Hlen : (Z.to_nat 100000
                  < length (yielded (Normalizer_call (fresh 200000)
                                       (reader_of_list identical_file))))%nat).
  { rewrite identical_file_all_kept. lia. }
  split; [exact Hn|split; [exact Hlen|]].
  destruct (periodic_report_to_stream_raises "reads.fa" "report.txt"
              (fresh 200000) (reader_of_list identical_file) Hn Hlen)
    as (record & n & _ & Hr & _).
  exact Hr.
Defined.

(** C9 on an empty file after three records. *)
Lemma empty_file_witness :
  total after_reads ≠ 0
  ∧ yielded (WithDiagnostics "empty.fa" after_reads ReaderStop None)
    = [Effect (Stderr (summary_line "empty.fa" after_reads))]
  ∧ final (WithDiagnostics "empty.fa" after_reads ReaderStop None)
    = after_reads.
Proof.
  assert (Hnz : total after_reads ≠ 0) by (simpl; lia).
  destruct (empty_file_leaves_counters_unchanged "empty.fa" after_reads None)
    as (Hf & _ & Hs).
  split; [exact Hnz|split; [exact (proj2 (Hs Hnz))|exact Hf]].
Defined.

(** C9 as stated fails on an empty file that is processed after a file
    with records: the empty file gets the "done with file" summary of the
    cumulative counters, and no "skipped empty file" notice is printed. *)
Lemma empty_file_after_reads_gets_summary :
  let trace :=
    (main (H1 := khmer_on sample_files)
       (sample_args 1 false false false None None
          ["data/reads.fa"; "empty.fa"])).1 in
  trace
  = [Stderr (Info "normalize-by-median.py" ["diginorm"]);
     Stderr ReportOnConfig; Stderr MakingTable;
     OpenWrite "reads.fa.keep";
     WriteRecord "reads.fa.keep" read_acgt;
     WriteRecord "reads.fa.keep" mate_c;
     Stderr (DoneWith "data/reads.fa" 2 3 66);
     Stderr (OutputIn "reads.fa.keep");
     OpenWrite "empty.fa.keep";
     Stderr (DoneWith "empty.fa" 2 3 66);
     Stderr (OutputIn "empty.fa.keep");
     Stderr (UniqueKmers 2);
     Stderr (FpRate (float_of_int 0))]
  ∧ List.filter is_summary trace
    = [Stderr (DoneWith "data/reads.fa" 2 3 66);
       Stderr (DoneWith "empty.fa" 2 3 66)].
Proof. split; vm_compute; reflexivity. Qed.

(** C3 on two files with three and two records: the summary of the second
    file is computed from five records. *)
Lemma summary_witness :
  let args :=
    sample_args 1 false false false None None ["data/reads.fa"; "more.fa"] in
  let run := normalize_file (H1 := khmer_on sample_files) args after_reads
               "more.fa" false "more.fa.keep" in
  process_files (H1 := khmer_on sample_files) args (fresh 1) []
    [("data/reads.fa", false)]
  = ([OpenWrite "reads.fa.keep";
      WriteRecord "reads.fa.keep" read_acgt;
      WriteRecord "reads.fa.keep" mate_c;
      Stderr (DoneWith "data/reads.fa" 2 3 66);
      Stderr (OutputIn "reads.fa.keep")],
     Ok (after_reads, []))
  ∧ raised run = None
  ∧ total (final run) = 5
  ∧ (process_files (H1 := khmer_on sample_files) args (fresh 1) []
       [("data/reads.fa", false); ("more.fa", false)]).1
    = [OpenWrite "reads.fa.keep";
       WriteRecord "reads.fa.keep" read_acgt;
       WriteRecord "reads.fa.keep" mate_c;
       Stderr (DoneWith "data/reads.fa" 2 3 66);
       Stderr (OutputIn "reads.fa.keep");
       OpenWrite "more.fa.keep";
       WriteRecord "more.fa.keep" mate_a;
       Stderr (DoneWith "more.fa" 3 5 60);
       Stderr (OutputIn "more.fa.keep")].
Proof.
  intros args run.
  assert (Hpre : process_files (H1 := khmer_on sample_files) args (fresh 1) []
                   [("data/reads.fa", false)]
                 = ([OpenWrite "reads.fa.keep";
                     WriteRecord "reads.fa.keep" read_acgt;
                     WriteRecord "reads.fa.keep" mate_c;
                     Stderr (DoneWith "data/reads.fa" 2 3 66);
                     Stderr (OutputIn "reads.fa.keep")],
                    Ok (after_reads, [])))
    by (vm_compute; reflexivity).
  assert (Hr : raised run = None) by (vm_compute; reflexivity).
  split; [exact Hpre|split; [exact Hr|]].
  destruct (summary_uses_cumulative_counters (H1 := khmer_on sample_files)
              args (fresh 1) [] [("data/reads.fa", false)] "more.fa" false
              _ _ _ Hpre Hr) as (Ht & _ & _ & _ & body & _ & Htrace).
  split.
  - etransitivity; [exact Ht|]. vm_compute. reflexivity.
  - vm_compute. reflexivity.
Defined.

(** C5 on a file with a malformed record, in fault-tolerant mode and with
    per-file output. *)
Lemma io_error_witness :
  let args :=
    sample_args 1 false false true None None ["broken.fq"; "empty.fa"] in
  let run := normalize_file (H1 := khmer_on sample_files) args (fresh 1)
               "broken.fq" false "broken.fq.keep" in
  raised run = Some (ValueError "bad record")
  ∧ caught (ValueError "bad record") = true
  ∧ process_files (H1 := khmer_on sample_files) args (fresh 1) []
      [("broken.fq", false); ("empty.fa", false)]
    = ([OpenWrite "broken.fq.keep";
        WriteRecord "broken.fq.keep" mate_a;
        Stderr (ErrorLine "bad record");
        Stderr (FailedOn "broken.fq");
        Remove "broken.fq.keep";
        Stderr SkippingErrorFile]
       ++ (process_files (H1 := khmer_on sample_files) args (final run)
             ["broken.fq"] [("empty.fa", false)]).1,
       (process_files (H1 := khmer_on sample_files) args (final run)
          ["broken.fq"] [("empty.fa", false)]).2).
Proof.
  intros args run.
  assert (Hr : raised run = Some (ValueError "bad record"))
    by (vm_compute; reflexivity).
  assert (Hc : caught (ValueError "bad record") = true) by reflexivity.
  split; [exact Hr|split; [exact Hc|]].
  destruct (io_error_removes_output_then_exits_or_skips
              (H1 := khmer_on sample_files) args (fresh 1) []
              "broken.fq" false [("empty.fa", false)]
              (ValueError "bad record") Hr Hc) as (_ & _ & _ & _ & Hforce).
  rewrite (Hforce eq_refl). f_equal.
Defined.

(** C6 on a command line with [--force-single] and [-p]. *)
Lemma both_modes_forced_witness :
  let args :=
    sample_args 10 true true false None None ["data/reads.fa"] in
  force_single args = true
  ∧ paired args = true
  ∧ exit_status (main (H1 := khmer_on sample_files) args).2 = 0.
Proof.
  intros args.
  split; [reflexivity|split; [reflexivity|]].
  exact (proj2 (both_modes_forced_exit_status (H1 := khmer_on sample_files)
                  args eq_refl eq_refl)).
Defined.

(** C10 on a run with a report stream whose first file is empty. *)
Lemma end_of_file_report_witness :
  let args :=
    sample_args 10 false false false (Some "report.txt") None
      ["empty.fa"; "data/reads.fa"] in
  let reader :=
    open_reader (Khmer := khmer_on sample_files) "empty.fa" 4 false false in
  report args = Some "report.txt"
  ∧ 0 ≤ total (fresh 10)
  ∧ ending_of reader = None
  ∧ total (final (Normalizer_call (fresh 10) reader)) = 0
  ∧ process_files (H1 := khmer_on sample_files) args (fresh 10) []
      [("empty.fa", false); ("data/reads.fa", false)]
    = ([OpenWrite "empty.fa.keep"; Stderr (SkippedEmpty "empty.fa")],
       Raise (ZeroDivisionError "float division by zero")).
Proof.
  intros args reader.
  assert (Hfp : report args = Some "report.txt") by reflexivity.
  assert (Hn : 0 ≤ total (fresh 10)) by (simpl; lia).
  assert (Hend : ending_of reader = None) by reflexivity.
  assert (Hz : total (final (Normalizer_call (fresh 10) reader)) = 0)
    by reflexivity.
  split; [exact Hfp|split; [exact Hn|split; [exact Hend|split; [exact Hz|]]]].
  destruct (end_of_file_report_divides_by_zero (H1 := khmer_on sample_files)
              args (fresh 10) [] "empty.fa" false [("data/reads.fa", false)]
              "report.txt" Hfp Hn Hend Hz) as (_ & _ & Hp & _).
  exact Hp.
Defined.

(** * Further properties *)

(** ** The normalizer *)

Section NormalizerProperties.
Context {H : Type} `{CountingHash H}.
Implicit Types (n : Normalizer H) (u : Item) (us : list Item).

Lemma sublist_concat {A} (l1 l2 : list (list A)) :
  sublist l1 l2 → sublist (concat l1) (concat l2).
Proof.
  induction 1 as [|x l1 l2 _ IH|x l1 l2 _ IH]; simpl.
  - constructor.
  - by apply sublist_app.
  - by apply sublist_inserts_l.
Qed.

(** X1.  The normalizer is a filter that keeps the order of its input: the
    records it yields are a subsequence of the records of the units read,
    so no record is yielded twice, reordered or invented. *)
Theorem kept_records_keep_input_order n reader :
  sublist (yielded (Normalizer_call n reader)).*1
          (records_of_units (units_of reader))
  ∧ (length (yielded (Normalizer_call n reader))
     ≤ length (records_of_units (units_of reader)))%nat.
Proof.
  assert (Hsub : sublist (yielded (Normalizer_call n reader)).*1
                   (records_of_units (units_of reader))).
  { destruct (Normalizer_call_whole_units n reader) as (ks & Hks & ->).
    apply sublist_concat. by apply fmap_sublist. }
  split; [exact Hsub|].
  apply sublist_length in Hsub. by rewrite length_fmap in Hsub.
Qed.

Lemma call_unit_kept_count n u :
  logical_unit u →
  total (call_unit n u).2 - discarded (call_unit n u).2
  = total n - discarded n + Z.of_nat (length (call_unit n u).1).
Proof.
  intros Hu. rewrite call_unit_total.
  destruct (some_below_dec (htable n) (desired_coverage n) (batch_of u)).
  - rewrite call_unit_kept by done. rewrite consume_batch_final.
    pose proof (consume_batch_records (counted n u) (batch_of u)) as Hr.
    apply (f_equal length) in Hr. rewrite length_fmap in Hr. rewrite Hr.
    rewrite batch_length by exact Hu. simpl. lia.
  - rewrite call_unit_discarded by done.
    rewrite batch_length by exact Hu. simpl. lia.
Qed.

Lemma Normalizer_call_kept_count n reader :
  Forall logical_unit (units_of reader) →
  total (final (Normalizer_call n reader))
  - discarded (final (Normalizer_call n reader))
  = total n - discarded n
    + Z.of_nat (length (yielded (Normalizer_call n reader))).
Proof.
  revert n. induction reader as [|u rest IH|e]; intros n Hus; simpl units_of in *.
  - simpl. lia.
  - apply Forall_cons in Hus as [Hu Hus].
    rewrite Normalizer_call_cons. cbn [final yielded].
    rewrite IH by exact Hus. rewrite call_unit_kept_count by exact Hu.
    rewrite length_app. lia.
  - simpl. lia.
Qed.

(** X2.  Over a stream of logical units the kept count [total - discarded]
    grows by exactly the number of records that the normalizer yields: the
    kept figure of the summaries counts the records handed to the writer.
    In particular a new [Normalizer] has kept as many records as it has
    yielded. *)
Theorem kept_count_is_number_of_yielded_records n reader :
  Forall logical_unit (units_of reader) →
  total (final (Normalizer_call n reader))
  - discarded (final (Normalizer_call n reader))
  = total n - discarded n
    + Z.of_nat (length (yielded (Normalizer_call n reader)))
  ∧ (total n = 0 → discarded n = 0 →
     total (final (Normalizer_call n reader))
     - discarded (final (Normalizer_call n reader))
     = Z.of_nat (length (yielded (Normalizer_call n reader)))).
Proof.
  intros Hus. pose proof (Normalizer_call_kept_count n reader Hus) as Hk.
  split; [exact Hk|]. intros Ht Hd. lia.
Qed.

Lemma consume_all_app (h : H) (l1 l2 : list Read) :
  consume_all h (l1 ++ l2) = consume_all (consume_all h l1) l2.
Proof. unfold consume_all. by rewrite fold_left_app. Qed.

Lemma tables_follow_app (h : H) ys1 ys2 :
  tables_follow h ys1 →
  tables_follow (consume_all h ys1.*1) ys2 →
  tables_follow h (ys1 ++ ys2).
Proof.
  unfold tables_follow. intros H1 H2 i record m Hi. rewrite fmap_app.
  destruct (decide (i < length ys1)%nat) as [Hlt|Hge].
  - rewrite lookup_app_l in Hi by exact Hlt.
    rewrite take_app_le by (rewrite length_fmap; lia). by eapply H1.
  - rewrite lookup_app_r in Hi by lia.
    rewrite take_app_ge by (rewrite length_fmap; lia).
    rewrite consume_all_app, length_fmap.
    replace (S i - length ys1)%nat with (S (i - length ys1)) by lia.
    by eapply H2.
Qed.

Lemma consume_batch_tables n batch :
  tables_follow (htable n) (consume_batch n batch).1.
Proof.
  unfold tables_follow.
  revert n. induction batch as [|r batch IH]; intros n; [by intros i ? ? ?|].
  simpl. specialize (IH (set_htable n (consume (htable n) (seq_of r)))).
  destruct (consume_batch _ batch) as [ys n2]. simpl in *.
  intros [|i] record m Hi; simpl in Hi.
  - by injection Hi as <- <-.
  - apply IH in Hi. rewrite Hi. reflexivity.
Qed.

Lemma call_unit_table n u :
  htable (call_unit n u).2 = consume_all (htable n) (call_unit n u).1.*1
  ∧ tables_follow (htable n) (call_unit n u).1.
Proof.
  destruct (some_below_dec (htable n) (desired_coverage n) (batch_of u)).
  - rewrite call_unit_kept by done.
    rewrite consume_batch_final, consume_batch_records. split; [done|].
    exact (consume_batch_tables (counted n u) (batch_of u)).
  - rewrite call_unit_discarded by done. split; [done|]. by intros i ? ? ?.
Qed.

(** X3.  The table is changed by nothing but the kept records: after a run
    it is the table of the start with the substituted sequences of the
    yielded records consumed in the order of the yields, at every yield it
    holds the records yielded so far, and the cutoff never changes. *)
Theorem table_holds_exactly_the_kept_records n reader :
  htable (final (Normalizer_call n reader))
  = consume_all (htable n) (yielded (Normalizer_call n reader)).*1
  ∧ tables_follow (htable n) (yielded (Normalizer_call n reader))
  ∧ desired_coverage (final (Normalizer_call n reader)) = desired_coverage n.
Proof.
  split; [|split].
  - revert n. induction reader as [|u rest IH|e]; intros n; [done| |done].
    rewrite Normalizer_call_cons. cbn [final yielded].
    rewrite IH, fmap_app, consume_all_app.
    by rewrite (proj1 (call_unit_table n u)).
  - revert n. induction reader as [|u rest IH|e]; intros n;
      [by intros i ? ? ?| |by intros i ? ? ?].
    rewrite Normalizer_call_cons. cbn [yielded].
    apply tables_follow_app; [apply call_unit_table|].
    rewrite <- (proj1 (call_unit_table n u)). apply IH.
  - rewrite Normalizer_call_final. apply after_units_desired_coverage.
Qed.

(** X4.  A stream none of whose units has a record below the cutoff in the
    current table is discarded as a whole: nothing is yielded, the table
    is left as it is, and every record is added to [total] and, with the
    size of its batch, to [discarded]. *)
Theorem saturated_table_discards_whole_stream n us :
  (∀ u, u ∈ us →
     ¬ some_below (htable n) (desired_coverage n) (batch_of u)) →
  Normalizer_call n (reader_of_list us)
  = mkRun [] None
      (mkNormalizer (htable n) (desired_coverage n)
         (total n + records_in us)
         (discarded n + Z.of_nat (length (records_of_units us)))).
Proof.
  revert n. induction us as [|u us IH]; intros n Hsat.
  - destruct n as [h dc t d]. simpl. by rewrite !Z.add_0_r.
  - rewrite reader_of_list_cons, Normalizer_call_cons.
    assert (Hu : ¬ some_below (htable n) (desired_coverage n) (batch_of u)).
    { apply Hsat. by left. }
    rewrite (call_unit_discarded n u Hu). cbn [fst snd].
    rewrite IH.
    + unfold records_of_units. rewrite fmap_cons, concat_cons, length_app.
      cbn [htable desired_coverage total discarded add_discarded counted
           add_total yielded raised final app].
      change (records_in (u :: us)) with (unit_size u + records_in us).
      f_equal. f_equal; lia.
    + intros u' Hin. simpl. apply Hsat. by right.
Qed.

End NormalizerProperties.

(** ** The substituted sequence *)

Lemma replace_length old new s :
  String.length (replace old new s) = String.length s.
Proof. induction s as [|c s IH]; simpl; congruence. Qed.

Lemma replace_get old new s i :
  String.get i (replace old new s)
  = (fun c => if Ascii.eqb c old then new else c) <$> String.get i s.
Proof.
  revert i. induction s as [|c s IH]; intros i; [done|].
  destruct i as [|i]; simpl; [done|apply IH].
Qed.

(** X5.  The sequence that is handed to the counting table, for the query
    and for the update, never contains the ambiguity symbol: it has the
    length of the sequence of the record, with 'A' at the positions of 'N'
    and every other symbol in its place, and it is the sequence itself
    when that has no 'N'. *)
Theorem substituted_sequence_has_no_N record :
  has_N (seq_of record) = false
  ∧ String.length (seq_of record) = String.length (sequence record)
  ∧ (∀ i, String.get i (seq_of record)
          = (fun c => if Ascii.eqb c "N"%char then "A"%char else c)
            <$> String.get i (sequence record))
  ∧ (has_N (sequence record) = false → seq_of record = sequence record).
Proof.
  unfold seq_of. split; [|split; [|split]].
  - induction (sequence record) as [|c s IH]; [done|]. simpl.
    rewrite IH, orb_false_r. by destruct (Ascii.eqb c "N") eqn:E.
  - apply replace_length.
  - intros i. apply replace_get.
  - induction (sequence record) as [|c s IH]; [done|]. simpl.
    intros Hn. apply orb_false_iff in Hn as [Hc Hs].
    by rewrite Hc, IH.
Qed.

(** ** The diagnostics generator as a wrapper *)

Section WrapperProperties.
Context {H : Type} `{CountingHash H}.
Implicit Types (n norm : Normalizer H) (ys : list (Read * Normalizer H)).

Lemma records_of_app out1 out2 :
  records_of (out1 ++ out2) = records_of out1 ++ records_of out2.
Proof. unfold records_of. apply omap_app. Qed.

Lemma records_of_periodic f fp norm :
  records_of (periodic_report f fp norm).1 = [].
Proof.
  unfold periodic_report, perc, div_float.
  destruct (total norm =? 0); [done|]. by destruct fp.
Qed.

Lemma records_of_per_file f fp norm :
  records_of (per_file_report f fp norm).1 = [].
Proof.
  destruct (decide (total norm = 0)) as [Hz|Hnz].
  - by rewrite per_file_report_zero.
  - rewrite per_file_report_nonzero by exact Hnz.
    unfold closing_lines. destruct (total norm =? 0); [done|]. by destruct fp.
Qed.

Lemma records_of_yields (records : list Read) :
  records_of (YieldRecord <$> records) = records.
Proof. induction records as [|r records IH]; [done|]. simpl. by f_equal. Qed.

(** The loop passes on a prefix of the records, all of them when it is
    left at the end of the records. *)
Lemma diagnostics_loop_records f fp index ys :
  (∃ k, records_of (diagnostics_loop f fp index ys).1 = take k ys.*1)
  ∧ ((diagnostics_loop f fp index ys).2 = None →
     records_of (diagnostics_loop f fp index ys).1 = ys.*1).
Proof.
  revert index. induction ys as [|[record norm] ys IH]; intros index.
  - split; [by exists 0%nat|done].
  - rewrite diagnostics_loop_cons.
    pose proof (records_of_periodic f fp norm) as Hp.
    destruct (IH (index + 1)) as [[k Hk] Hall].
    destruct (progress_due index).
    + destruct (periodic_report f fp norm) as [out [[]|e]]; simpl in *.
      * rewrite records_of_app, Hp. simpl. split.
        -- exists (S k). simpl. by rewrite Hk.
        -- intros Hnone. by rewrite Hall.
      * split; [by exists 0%nat|discriminate].
    + simpl. split.
      * exists (S k). simpl. by rewrite Hk.
      * intros Hnone. by rewrite Hall.
Qed.

(** X6.  [WithDiagnostics] is a transparent wrapper: the records it yields
    are a prefix of the records of the normalizer, unchanged and in order.
    They are all the records, the exception is the one of the reader and
    the [Normalizer] is left as the normalizer left it, when there is no
    report stream and whenever the generator ends normally. *)
Theorem diagnostics_pass_records_through f norm reader fp :
  0 ≤ total norm →
  let r := Normalizer_call norm reader in
  let w := WithDiagnostics f norm reader fp in
  (∃ k, records_of (yielded w) = take k (yielded r).*1)
  ∧ (fp = None →
     records_of (yielded w) = (yielded r).*1
     ∧ raised w = raised r ∧ final w = final r)
  ∧ (raised w = None →
     records_of (yielded w) = (yielded r).*1 ∧ final w = final r).
Proof.
  intros Hn r w.
  assert (Hgen : (∃ k, records_of (yielded w) = take k (yielded r).*1)
                 ∧ (raised w = None →
                    records_of (yielded w) = (yielded r).*1
                    ∧ final w = final r)).
  { subst w. unfold WithDiagnostics. fold r.
    destruct (diagnostics_loop_records f fp 0 (yielded r)) as [[k Hk] Hall].
    destruct (diagnostics_loop f fp 0 (yielded r)) as [out [[e m]|]];
      simpl in *.
    - split; [by exists k|discriminate].
    - destruct (raised r).
      + split; [by exists k|discriminate].
      + pose proof (records_of_per_file f fp (final r)) as Hpf.
        destruct (per_file_report f fp (final r)) as [out' [[]|e]];
          simpl in *.
        * rewrite records_of_app, Hpf, app_nil_r.
          split; [by exists k|]. intros _. split; [by apply Hall|done].
        * rewrite records_of_app, Hpf, app_nil_r.
          split; [by exists k|discriminate]. }
  split; [apply Hgen|split; [|apply Hgen]].
  intros ->. clear Hgen. subst w r.
  rewrite WithDiagnostics_no_stream by exact Hn.
  cbn [yielded raised final].
  rewrite Normalizer_call_raised. split; [|done].
  set (r := Normalizer_call norm reader).
  pose proof (diagnostics_loop_records f None 0 (yielded r)) as [_ Hall].
  rewrite (diagnostics_loop_no_stream f 0) in Hall
    by (apply snapshots_nonzero; exact Hn).
  assert (Hrec : records_of (concat (imap (at_record f) (yielded r)))
                 = (yielded r).*1) by exact (Hall eq_refl).
  rewrite records_of_app, Hrec.
  destruct (ending_of reader); [by rewrite app_nil_r|].
  unfold closing_lines. destruct (total (final r) =? 0); by rewrite app_nil_r.
Qed.

Lemma div_at_multiple m :
  0 < m → m mod 100000 = 0 →
  m / 100000 = (m - 1) / 100000 + 1 ∧ 100000 * (m / 100000) = m.
Proof.
  intros Hm Hmod. pose proof (Z.div_mod m 100000 ltac:(lia)) as Hdm.
  rewrite Hmod in Hdm. split; [|lia].
  assert (Hq : m / 100000 - 1 = (m - 1) / 100000).
  { apply (Z.div_unique _ _ _ 99999); lia. }
  lia.
Qed.

Lemma div_between_multiples m :
  0 < m → m mod 100000 ≠ 0 → m / 100000 = (m - 1) / 100000.
Proof.
  intros Hm Hmod. pose proof (Z.div_mod m 100000 ltac:(lia)) as Hdm.
  pose proof (Z.mod_pos_bound m 100000 ltac:(lia)) as Hb.
  apply (Z.div_unique _ _ _ (m mod 100000 - 1)); lia.
Qed.

(** The indices below [m] at which a progress line is due. *)
Lemma filter_due_multiples (m : nat) :
  List.filter progress_due (Z.of_nat <$> seq 0 m)
  = (fun j => 100000 * Z.of_nat j)
    <$> seq 1 (Z.to_nat ((Z.of_nat m - 1) / 100000)).
Proof.
  induction m as [|m IH]; [reflexivity|].
  rewrite seq_S, fmap_app, List.filter_app, IH.
  replace (Z.of_nat (S m) - 1) with (Z.of_nat m) by lia.
  change (List.filter progress_due (Z.of_nat <$> [(0 + m)%nat]))
    with (if progress_due (Z.of_nat m) then [Z.of_nat m] else []).
  unfold progress_due.
  destruct (0 <? Z.of_nat m) eqn:Epos; simpl.
  - apply Z.ltb_lt in Epos.
    destruct (Z.of_nat m mod 100000 =? 0) eqn:Emod.
    + apply Z.eqb_eq in Emod.
      destruct (div_at_multiple _ Epos Emod) as [Hq Hm].
      pose proof (Z.div_pos (Z.of_nat m - 1) 100000 ltac:(lia) ltac:(lia)).
      rewrite Hq, Z2Nat.inj_add by lia. rewrite Nat.add_1_r, seq_S, fmap_app.
      f_equal. simpl. f_equal. rewrite <- Hm at 1. rewrite Hq. lia.
    + apply Z.eqb_neq in Emod.
      rewrite (div_between_multiples _ Epos Emod). by rewrite app_nil_r.
  - apply Z.ltb_ge in Epos. assert (m = 0%nat) as -> by lia. reflexivity.
Qed.

(** X7.  Without a report stream, a file from which [kept] records are
    kept gets its progress lines exactly at the kept-record indices
    100000, 200000, ... below [kept]: there are [(kept - 1) / 100000] of
    them, and none for a file with at most 100,000 kept records. *)
Theorem progress_lines_at_multiples_of_100000 f norm reader :
  0 ≤ total norm →
  let kept := Z.of_nat (length (yielded (Normalizer_call norm reader))) in
  progress_indices 0 (yielded (WithDiagnostics f norm reader None))
  = (fun j => 100000 * Z.of_nat j)
    <$> seq 1 (Z.to_nat ((kept - 1) / 100000)).
Proof.
  intros Hn kept. rewrite progress_indices_no_stream by exact Hn.
  apply filter_due_multiples.
Qed.


End WrapperProperties.

(** ** One file of the run *)

Section FileProperties.
Context {H : Type} `{CountingHash H} `{Khmer H}.
Implicit Types (n norm : Normalizer H) (args : Args).

Lemma filter_none {A} (p : A → bool) (l : list A) :
  Forall (fun x => p x = false) l → List.filter p l = [].
Proof. induction 1 as [|x l Hx _ IH]; simpl; [done|]. by rewrite Hx. Qed.

Lemma written_app out1 out2 : written (out1 ++ out2) = written out1 ++ written out2.
Proof. unfold written. apply omap_app. Qed.

Lemma written_write_out o (out : list diag) :
  Forall diag_kind out →
  written (write_out o <$> out) = (fun record => (o, record)) <$> records_of out.
Proof.
  induction 1 as [|d out Hd _ IH]; [done|].
  destruct d as [[]|record]; simpl in *; try done. by f_equal.
Qed.

Lemma normalize_file_written args norm f rp o :
  written (yielded (normalize_file args norm f rp o))
  = (fun record => (o, record))
    <$> records_of (yielded (WithDiagnostics f norm (reader_for args (f, rp))
                               (report args))).
Proof.
  rewrite normalize_file_yielded, written_app.
  rewrite written_write_out by apply WithDiagnostics_kind.
  unfold reader_for. simpl. destruct (raised _); by rewrite app_nil_r.
Qed.

Lemma normalize_file_no_open args norm f rp o :
  Forall (fun x => is_open x = false)
         (yielded (normalize_file args norm f rp o)).
Proof.
  rewrite normalize_file_yielded. apply Forall_app. split.
  - apply Forall_fmap. eapply Forall_impl; [apply WithDiagnostics_kind|].
    intros [[]|] Hk; simpl in *; done.
  - destruct (raised _); by repeat constructor.
Qed.

(** Without a report stream a file ends as its reader ends. *)
Lemma normalize_file_no_stream args norm f rp o :
  report args = None → 0 ≤ total norm →
  raised (normalize_file args norm f rp o) = ending_of (reader_for args (f, rp))
  ∧ final (normalize_file args norm f rp o)
    = after_units norm (units_read args (f, rp)).
Proof.
  intros Hfp Hn. rewrite normalize_file_raised, normalize_file_final, Hfp.
  rewrite WithDiagnostics_no_stream by exact Hn. cbn [raised final].
  split; [reflexivity|]. apply Normalizer_call_final.
Qed.

(** X9.  The records written for a file are records that the normalizer
    kept, unchanged, in the order it kept them, and all of them go to the
    output of that file; without a report stream they are all the kept
    records, also when the reader fails later in the file. *)
Theorem kept_records_are_written_to_the_output args norm f rp o :
  0 ≤ total norm →
  let kept := (yielded (Normalizer_call norm (reader_for args (f, rp)))).*1 in
  (∃ k, written (yielded (normalize_file args norm f rp o))
        = (fun record => (o, record)) <$> take k kept)
  ∧ (report args = None →
     written (yielded (normalize_file args norm f rp o))
     = (fun record => (o, record)) <$> kept).
Proof.
  intros Hn kept. rewrite normalize_file_written.
  split.
  - assert (Hpre : ∃ k,
      records_of (yielded (WithDiagnostics f norm (reader_for args (f, rp))
                             (report args))) = take k kept).
    { unfold WithDiagnostics.
      set (r := Normalizer_call norm (reader_for args (f, rp))).
      destruct (diagnostics_loop_records f (report args) 0 (yielded r))
        as [[k Hk] _].
      destruct (diagnostics_loop f (report args) 0 (yielded r))
        as [out [[e m]|]]; simpl in *; [by exists k|].
      destruct (raised r); [by exists k|].
      pose proof (records_of_per_file f (report args) (final r)) as Hpf.
      destruct (per_file_report f (report args) (final r)) as [out' [[]|e]];
        simpl in *; rewrite records_of_app, Hpf, app_nil_r; by exists k. }
    destruct Hpre as [k ->]. by exists k.
  - intros Hfp. rewrite Hfp, WithDiagnostics_no_stream by exact Hn.
    cbn [yielded]. f_equal.
    set (r := Normalizer_call norm (reader_for args (f, rp))).
    pose proof (diagnostics_loop_records f None 0 (yielded r)) as [_ Hall].
    rewrite (diagnostics_loop_no_stream f 0) in Hall
      by (apply snapshots_nonzero; exact Hn).
    assert (Hrec : records_of (concat (imap (at_record f) (yielded r)))
                   = (yielded r).*1) by exact (Hall eq_refl).
    rewrite records_of_app, Hrec.
    destruct (ending_of (reader_for args (f, rp))); [by rewrite app_nil_r|].
    unfold closing_lines.
    destruct (total (final r) =? 0); by rewrite app_nil_r.
Qed.

(** X10.  An exception that is neither [IOError] nor [ValueError], such as
    the [NameError] and [ZeroDivisionError] of the diagnostics, is not
    contained by [CatchIOErrors], with or without [--force]: the run ends
    at that file, whose output is not removed and whose name is not
    recorded, and no later file is opened. *)
Theorem unhandled_exception_ends_run args norm c f rp rest e :
  let o := output_name_of args f in
  let r := normalize_file args norm f rp o in
  raised r = Some e → caught e = false →
  process_files args norm c ((f, rp) :: rest)
  = (OpenWrite o :: yielded r, Raise e)
  ∧ List.filter is_remove (OpenWrite o :: yielded r) = []
  ∧ List.filter is_open (OpenWrite o :: yielded r) = [OpenWrite o].
Proof.
  intros o r Hr Hc.
  pose proof (process_files_cons args norm c f rp rest) as Hstep.
  cbv zeta in Hstep. fold o in Hstep. fold r in Hstep.
  rewrite Hr, Hc in Hstep. split; [exact Hstep|]. simpl. split.
  - apply filter_none, normalize_file_no_remove.
  - f_equal. apply filter_none, normalize_file_no_open.
Qed.

End FileProperties.

(** ** The loop over the files, as a whole *)

Section LoopProperties.
Context {H : Type} `{CountingHash H} `{Khmer H}.
Implicit Types (n norm : Normalizer H) (args : Args).

Lemma after_files_cons args norm file files :
  after_files args norm (file :: files)
  = after_files args (after_units norm (units_read args file)) files.
Proof. reflexivity. Qed.

Lemma after_units_total_nonneg norm us :
  0 ≤ total norm → 0 ≤ total (after_units norm us).
Proof.
  intros Hn. rewrite after_units_total. pose proof (records_in_nonneg us). lia.
Qed.

(** The fault-tolerant loop without a report stream. *)
Lemma tolerant_loop args norm c files :
  force args = true → report args = None → 0 ≤ total norm →
  Forall (readable args) files →
  ∃ out,
    process_files args norm c files
    = (out, Ok (after_files args norm files,
                c ++ (List.filter (file_fails args) files).*1))
    ∧ List.filter is_remove out
      = match single_output_file args with
        | Some _ => []
        | None =>
            (fun file => Remove (output_name_of args file.1))
            <$> List.filter (file_fails args) files
        end.
Proof.
  intros Hforce Hfp Hn Hfiles. revert norm c Hn.
  induction Hfiles as [|[f rp] files Hfile _ IH]; intros norm c Hn.
  - exists []. cbn. rewrite app_nil_r. split; [done|].
    by destruct (single_output_file args).
  - pose proof (process_files_cons args norm c f rp files) as Hstep.
    cbv zeta in Hstep.
    set (o := output_name_of args f) in *.
    set (r := normalize_file args norm f rp o) in *.
    destruct (normalize_file_no_stream args norm f rp o Hfp Hn) as [Hr Hfin].
    fold r in Hr, Hfin.
    pose proof (normalize_file_no_remove args norm f rp o) as Hnorem.
    fold r in Hnorem.
    assert (Hn' : 0 ≤ total (final r)).
    { rewrite Hfin. by apply after_units_total_nonneg. }
    unfold readable in Hfile. rewrite after_files_cons, <- Hfin.
    cbn [List.filter].
    destruct (ending_of (reader_for args (f, rp))) as [e|] eqn:Eend.
    + assert (Hff : file_fails args (f, rp) = true).
      { unfold file_fails. by rewrite Eend. }
      rewrite Hr, Hfile, Hforce in Hstep. rewrite Hff.
      destruct (IH (final r) (c ++ [f]) Hn') as (out & Hout & Hrem).
      rewrite Hout in Hstep. cbn [fst snd] in Hstep.
      exists (OpenWrite o :: yielded r
                ++ [Stderr (ErrorLine (str_of_exn e)); Stderr (FailedOn f)]
                ++ removal args o ++ Stderr SkippingErrorFile :: out).
      split.
      * rewrite Hstep. rewrite fmap_cons. cbn [fst].
        by rewrite <- app_assoc.
      * cbn [List.filter is_remove]. rewrite !List.filter_app.
        rewrite (filter_none _ _ Hnorem). cbn [List.filter is_remove app].
        rewrite Hrem. unfold removal.
        destruct (single_output_file args); reflexivity.
    + assert (Hff : file_fails args (f, rp) = false).
      { unfold file_fails. by rewrite Eend. }
      rewrite Hr in Hstep. rewrite Hff.
      destruct (IH (final r) c Hn') as (out & Hout & Hrem).
      rewrite Hout in Hstep. cbn [fst snd] in Hstep.
      exists (OpenWrite o :: yielded r ++ out). split; [exact Hstep|].
      cbn [List.filter is_remove]. rewrite List.filter_app.
      by rewrite (filter_none _ _ Hnorem), Hrem.
Qed.

(** X11.  In fault-tolerant mode without a report stream, a run over files
    whose readers end normally or with [IOError] or [ValueError] never
    ends early: the loop comes to its end, [corrupt_files] gets the names
    of exactly the files that failed, in the order of the run, and the
    [Normalizer] has processed every unit that was read from any file. *)
Theorem fault_tolerant_run_completes args norm c files :
  force args = true → report args = None → 0 ≤ total norm →
  Forall (readable args) files →
  (process_files args norm c files).2
  = Ok (after_files args norm files,
        c ++ (List.filter (file_fails args) files).*1).
Proof.
  intros Hforce Hfp Hn Hfiles.
  destruct (tolerant_loop args norm c files Hforce Hfp Hn Hfiles)
    as (out & -> & _).
  reflexivity.
Qed.

(** X12.  In such a run with per-file output, the output files that are
    removed are exactly the outputs of the files that failed, each once
    and in the order of the run; with a single output file nothing is
    ever removed. *)
Theorem failed_files_lose_their_output args norm c files :
  force args = true → report args = None → 0 ≤ total norm →
  Forall (readable args) files →
  List.filter is_remove (process_files args norm c files).1
  = match single_output_file args with
    | Some _ => []
    | None =>
        (fun file => Remove (output_name_of args file.1))
        <$> List.filter (file_fails args) files
    end.
Proof.
  intros Hforce Hfp Hn Hfiles.
  destruct (tolerant_loop args norm c files Hforce Hfp Hn Hfiles)
    as (out & -> & Hrem).
  exact Hrem.
Qed.

(** X13.  A loop that comes to its end has opened the output of every
    entry of the file list exactly once, in the order of the list, and
    still holds the names of the corrupt files it started with. *)
Theorem every_file_is_opened_once_in_order args norm c files out n' c' :
  process_files args norm c files = (out, Ok (n', c')) →
  List.filter is_open out
  = (fun file => OpenWrite (output_name_of args file.1)) <$> files
  ∧ c `prefix_of` c'.
Proof.
  revert norm c out. induction files as [|[f rp] files IH]; intros norm c out.
  - cbn. intros [= <- _ <-]. done.
  - rewrite process_files_cons.
    set (o := output_name_of args f).
    set (r := normalize_file args norm f rp o).
    pose proof (normalize_file_no_open args norm f rp o) as Hno. fold r in Hno.
    destruct (raised r) as [e|].
    + destruct (caught e); [|discriminate].
      destruct (force args); [|discriminate].
      destruct (process_files args (final r) (c ++ [f]) files)
        as [out' res] eqn:E.
      cbn [fst snd]. intros [= <- ->].
      destruct (IH _ _ _ E) as [Hopen Hpre]. split.
      * cbn [List.filter is_open]. rewrite !List.filter_app.
        rewrite (filter_none _ _ Hno). rewrite fmap_cons. cbn [app fst].
        f_equal. cbn [List.filter is_open]. rewrite List.filter_app.
        assert (Hrm : List.filter is_open (removal args o) = []).
        { unfold removal. by destruct (single_output_file args). }
        rewrite Hrm. cbn. exact Hopen.
      * etransitivity; [|exact Hpre]. by apply prefix_app_r.
    + destruct (process_files args (final r) c files) as [out' res] eqn:E.
      cbn [fst snd]. intros [= <- ->].
      destruct (IH _ _ _ E) as [Hopen Hpre]. split; [|exact Hpre].
      cbn [List.filter is_open]. rewrite List.filter_app.
      rewrite (filter_none _ _ Hno). cbn. by f_equal.
Qed.

(** X14.  Over a run without a report stream whose units are logical
    units, the kept count [total - discarded] grows by exactly the number
    of records written by the loop, the records written for files that
    failed later and lost their output included. *)
Theorem kept_count_is_number_of_written_records args norm c files out n' c' :
  report args = None → 0 ≤ total norm →
  Forall (fun file => Forall logical_unit (units_read args file)) files →
  process_files args norm c files = (out, Ok (n', c')) →
  total n' - discarded n'
  = total norm - discarded norm + Z.of_nat (length (written out)).
Proof.
  intros Hfp Hn Hunits. revert norm c out Hn.
  induction Hunits as [|[f rp] files Hus _ IH]; intros norm c out Hn.
  - cbn. intros [= <- <- _]. simpl. lia.
  - rewrite process_files_cons.
    set (o := output_name_of args f).
    set (r := normalize_file args norm f rp o).
    destruct (normalize_file_no_stream args norm f rp o Hfp Hn) as [_ Hfin].
    fold r in Hfin.
    assert (Hn' : 0 ≤ total (final r)).
    { rewrite Hfin. by apply after_units_total_nonneg. }
    assert (Hkept : total (final r) - discarded (final r)
              = total norm - discarded norm
                + Z.of_nat (length (written (yielded r)))).
    { unfold r at 3.
      rewrite normalize_file_written, Hfp, length_fmap.
      rewrite WithDiagnostics_no_stream by exact Hn. cbn [yielded].
      set (run := Normalizer_call norm (reader_for args (f, rp))).
      pose proof (diagnostics_loop_records f None 0 (yielded run)) as [_ Hall].
      rewrite (diagnostics_loop_no_stream f 0) in Hall
        by (apply snapshots_nonzero; exact Hn).
      assert (Hrec : records_of (concat (imap (at_record f) (yielded run)))
                     = (yielded run).*1) by exact (Hall eq_refl).
      assert (Hclose : records_of
                match ending_of (reader_for args (f, rp)) with
                | Some _ => []
                | None => closing_lines f None (final run)
                end = []).
      { destruct (ending_of _); [done|]. unfold closing_lines.
        by destruct (total (final run) =? 0). }
      rewrite records_of_app, Hrec, Hclose, app_nil_r, length_fmap.
      rewrite Hfin. unfold units_read. cbn [fst snd].
      rewrite <- Normalizer_call_final.
      apply Normalizer_call_kept_count. exact Hus. }
    destruct (raised r) as [e|].
    + destruct (caught e); [|discriminate].
      destruct (force args); [|discriminate].
      destruct (process_files args (final r) (c ++ [f]) files)
        as [out' res] eqn:E.
      cbn [fst snd]. intros [= <- ->].
      rewrite (IH _ _ _ Hn' E), Hkept.
      assert (Hrm : written (removal args o) = []).
      { unfold removal. by destruct (single_output_file args). }
      change (written (OpenWrite o :: ?l)) with (written l).
      rewrite written_app.
      change (written (Stderr ?a :: Stderr ?b :: ?l)) with (written l).
      rewrite written_app, Hrm.
      change (written (Stderr ?a :: ?l)) with (written l).
      rewrite length_app. simpl. lia.
    + destruct (process_files args (final r) c files) as [out' res] eqn:E.
      cbn [fst snd]. intros [= <- ->].
      rewrite (IH _ _ _ Hn' E), Hkept.
      change (written (OpenWrite o :: ?l)) with (written l).
      rewrite written_app, length_app. lia.
Qed.

End LoopProperties.

(** ** The whole run *)

Section MainProperties.
Context {H : Type} `{CountingHash H} `{Khmer H}.
Implicit Types (n norm : Normalizer H) (args : Args).

(** X15.  A run whose loop comes to its end and whose table passes the
    collision check ends with exit status 0, also when files were skipped:
    after the loop it reports the unique k-mers, saves the table when
    asked to, reports the estimated rate and, in fault-tolerant mode with
    skipped files, ends with the three lines that list them. *)
Theorem skipped_files_do_not_fail_the_run args out n cf fpr :
  force_single args && paired args = false →
  check_space (input_filenames args) (force args) = Ok tt →
  (if bool_decide (savetable args = "") then Ok tt
   else check_space_for_hashtable (n_tables args * min_tablesize args)
          (force args)) = Ok tt →
  process_files args (Normalizer_init (cutoff args) (initial_table args)) []
    (files_of args) = (out, Ok (n, cf)) →
  calc_expected_collisions (htable n) (force args) = Ok fpr →
  (main args).2 = Ok tt
  ∧ exit_status (main args).2 = 0
  ∧ ∃ before, (main args).1 = before ++ out ++ closing_effects args n fpr cf.
Proof.
  intros Hmodes Hspace Htable Hloop Hrate.
  assert (Hmain : (main args).2 = Ok tt
    ∧ ∃ before, (main args).1 = before ++ out ++ closing_effects args n fpr cf).
  { unfold main, closing_effects. rewrite Hmodes, Hspace.
    pose proof (check_names_ok [] (input_filenames args)) as Hnames.
    destruct (check_names [] (input_filenames args)) as [warnings r].
    simpl in Hnames. subst r. unfold initial_table in Hloop.
    destruct (bool_decide (savetable args = "")),
      (loadtable args) as [path|];
      cbn -[process_files]; rewrite ?Htable; cbn -[process_files];
      rewrite Hloop; cbn; rewrite Hrate; cbn;
      destruct (force args && (0 <? Z.of_nat (length cf))); cbn;
      (split; [reflexivity|]);
      match goal with
      | |- ∃ before, ?a :: ?b :: warnings ++ ?l :: ?rest = _ =>
          exists (a :: b :: warnings ++ [l])
      end;
      cbn; by rewrite <- !app_assoc. }
  destruct Hmain as [Hres Htrace]. split; [exact Hres|split; [|exact Htrace]].
  by rewrite Hres.
Qed.

End MainProperties.

(** ** File names *)

Lemma has_slash_app s1 s2 :
  has_slash (s1 +:+ s2) = has_slash s1 || has_slash s2.
Proof.
  induction s1 as [|c s1 IH]; [done|]. simpl. rewrite IH.
  by rewrite orb_assoc.
Qed.

Lemma append_empty s : s +:+ "" = s.
Proof.
  induction s as [|a s IH]; [done|].
  change (String a s +:+ "") with (String a (s +:+ "")). by f_equal.
Qed.

Lemma append_one cur c file :
  (cur +:+ String c "") +:+ file = cur +:+ String c file.
Proof.
  induction cur as [|a cur IH]; [done|].
  change (String a ((cur +:+ String c "") +:+ file)
          = String a (cur +:+ String c file)).
  by f_equal.
Qed.

Lemma basename_from_plain cur file :
  has_slash file = false → basename_from cur file = cur +:+ file.
Proof.
  revert cur. induction file as [|c file IH]; intros cur Hf.
  - simpl. by rewrite append_empty.
  - simpl in Hf. apply orb_false_iff in Hf as [Hc Hf].
    cbn [basename_from]. rewrite Hc, IH by exact Hf. apply append_one.
Qed.

Lemma basename_from_directory cur dir rest :
  has_slash rest = false →
  basename_from cur (dir +:+ String "/" rest) = rest.
Proof.
  intros Hrest. revert cur. induction dir as [|c dir IH]; intros cur.
  - simpl. by rewrite basename_from_plain.
  - simpl. destruct (Ascii.eqb c "/"); apply IH.
Qed.

Lemma basename_from_has_no_slash cur path :
  has_slash cur = false → has_slash (basename_from cur path) = false.
Proof.
  revert cur. induction path as [|c path IH]; intros cur Hcur; [done|].
  simpl. destruct (Ascii.eqb c "/") eqn:E; [by apply IH|].
  apply IH. rewrite has_slash_app, Hcur. simpl. by rewrite E.
Qed.

(** X16.  The name under which per-file output is written is the last
    component of the input path followed by [.keep]: the directories of
    the path are dropped, so the output never goes to another directory
    than the current one, and a path without directories is kept as it
    is. *)
Theorem output_goes_to_the_current_directory dir file :
  has_slash file = false →
  basename (dir +:+ String "/" file) = file
  ∧ basename file = file
  ∧ (∀ path, has_slash (basename path) = false)
  ∧ (∀ args path, single_output_file args = None →
       has_slash (output_name_of args path) = false
       ∧ output_name_of args (dir +:+ String "/" file) = file +:+ ".keep").
Proof.
  intros Hfile. split; [|split; [|split]].
  - by apply basename_from_directory.
  - unfold basename. by rewrite basename_from_plain.
  - intros path. by apply basename_from_has_no_slash.
  - intros args path Hnone. unfold output_name_of. rewrite Hnone. split.
    + rewrite has_slash_app. unfold basename.
      by rewrite basename_from_has_no_slash.
    + unfold basename. by rewrite basename_from_directory.
Qed.

Lemma check_names_cons seen path paths :
  check_names seen (path :: paths)
  = if bool_decide (basename path ∈ seen)
    then (Stderr (DuplicateName (basename path)) :: (check_names seen paths).1,
          (check_names seen paths).2)
    else check_names (seen ++ [basename path]) paths.
Proof.
  cbn [check_names]. destruct (bool_decide _); [|reflexivity].
  unfold print, emit. by rewrite act_bind_ok.
Qed.

Lemma check_names_quiet seen paths :
  (check_names seen paths).1 = []
  ↔ NoDup (basename <$> paths) ∧ ∀ x, x ∈ basename <$> paths → x ∉ seen.
Proof.
  revert seen. induction paths as [|path paths IH]; intros seen.
  - split; [|done]. intros _. split; [constructor|]. intros x Hx.
    by apply elem_of_nil in Hx.
  - rewrite check_names_cons, fmap_cons. case_bool_decide as Hin.
    + split; [discriminate|]. intros [_ Hfresh]. exfalso.
      apply (Hfresh (basename path)); [by left|exact Hin].
    + rewrite IH. split.
      * intros [Hnd Hfresh]. split.
        -- constructor; [|exact Hnd]. intros Hdup.
           apply (Hfresh _ Hdup). apply elem_of_app. right. by left.
        -- intros x Hx. apply elem_of_cons in Hx as [->|Hx]; [exact Hin|].
           intros Hs. apply (Hfresh x Hx). apply elem_of_app. by left.
      * intros [Hnd Hfresh]. apply NoDup_cons in Hnd as [Hnew Hnd].
        split; [exact Hnd|]. intros x Hx Hs.
        apply elem_of_app in Hs as [Hs|Hs].
        -- apply (Hfresh x); [by right|exact Hs].
        -- apply list_elem_of_singleton in Hs. by subst x.
Qed.

Lemma check_names_count seen paths :
  NoDup seen →
  (length (check_names seen paths).1
   + size (list_to_set (C:=gset string) (seen ++ (basename <$> paths)))
   = length seen + length paths)%nat.
Proof.
  revert seen. induction paths as [|path paths IH]; intros seen Hnd.
  - simpl. rewrite app_nil_r, size_list_to_set by exact Hnd. lia.
  - rewrite check_names_cons, fmap_cons. case_bool_decide as Hin.
    + cbn [fst length]. specialize (IH seen Hnd).
      assert (Hset : list_to_set (C:=gset string)
                       (seen ++ basename path :: (basename <$> paths))
                     = list_to_set (seen ++ (basename <$> paths))).
      { rewrite !list_to_set_app_L, list_to_set_cons.
        rewrite (assoc_L (∪)), (comm_L (∪) _ {[basename path]}).
        rewrite (subseteq_union_1_L {[basename path]}); [done|].
        apply singleton_subseteq_l. by apply elem_of_list_to_set. }
      rewrite Hset. lia.
    + assert (Hnd' : NoDup (seen ++ [basename path])).
      { apply NoDup_app. split; [exact Hnd|split].
        - intros x Hx Hs. apply list_elem_of_singleton in Hs. by subst x.
        - apply NoDup_singleton. }
      specialize (IH _ Hnd'). rewrite <- app_assoc in IH. simpl in IH.
      rewrite length_app in IH. simpl in IH. simpl. lia.
Qed.

(** X17.  The check of the input names prints no warning exactly when no
    two input paths share their last component, and otherwise one warning
    for every path whose name was seen before: the number of warnings is
    the number of paths less the number of distinct names.  The check
    never stops the run. *)
Theorem duplicate_names_are_warned_about paths :
  ((check_names [] paths).1 = [] ↔ NoDup (basename <$> paths))
  ∧ (check_names [] paths).2 = Ok tt
  ∧ (length (check_names [] paths).1
     + size (list_to_set (C:=gset string) (basename <$> paths))
     = length paths)%nat.
Proof.
  split; [|split].
  - rewrite check_names_quiet. split; [by intros [? _]|].
    intros Hnd. split; [exact Hnd|]. intros x _ Hx.
    by apply elem_of_nil in Hx.
  - apply check_names_ok.
  - exact (check_names_count [] paths (NoDup_nil_2)).
Qed.

(** ** The further properties on sample inputs *)

(** X2 on a stream with a single read and a pair. *)
Lemma kept_count_witness :
  Forall logical_unit (units_of (reader_of_list short_stream))
  ∧ total (final (Normalizer_call (fresh 10) (reader_of_list short_stream)))
    - discarded (final (Normalizer_call (fresh 10) (reader_of_list short_stream)))
    = Z.of_nat (length (yielded (Normalizer_call (fresh 10)
                                   (reader_of_list short_stream)))).
Proof.
  assert (Hus : Forall logical_unit (units_of (reader_of_list short_stream)))
    by (repeat constructor).
  split; [exact Hus|].
  exact (proj2 (kept_count_is_number_of_yielded_records (fresh 10)
                  (reader_of_list short_stream) Hus) eq_refl eq_refl).
Defined.

(** X4 on two more copies of a read that has reached the cutoff. *)
Lemma saturated_table_witness :
  (∀ u, u ∈ same_reads [1; 2]%nat →
     ¬ some_below (htable (after_first_kept 0))
         (desired_coverage (after_first_kept 0)) (batch_of u))
  ∧ Normalizer_call (after_first_kept 0) (reader_of_list (same_reads [1; 2]%nat))
    = mkRun [] None (mkNormalizer (table_after 1) 1 3 2).
Proof.
  assert (Hsat : ∀ u, u ∈ same_reads [1; 2]%nat →
            ¬ some_below (htable (after_first_kept 0))
                (desired_coverage (after_first_kept 0)) (batch_of u)).
  { intros u Hin. apply filter_batch_false.
    apply list_elem_of_In in Hin. simpl in Hin.
    destruct Hin as [<-|[<-|[]]]; vm_compute; reflexivity. }
  split; [exact Hsat|].
  exact (saturated_table_discards_whole_stream (after_first_kept 0)
           (same_reads [1; 2]%nat) Hsat).
Defined.

(** X6 on a stream with a single read and a pair. *)
Lemma pass_through_witness :
  0 ≤ total (fresh 10)
  ∧ records_of (yielded (WithDiagnostics "reads.fa" (fresh 10)
                           (reader_of_list short_stream) None))
    = (yielded (Normalizer_call (fresh 10) (reader_of_list short_stream))).*1.
Proof.
  assert (Hn : 0 ≤ total (fresh 10)) by (simpl; lia).
  split; [exact Hn|].
  destruct (diagnostics_pass_records_through "reads.fa" (fresh 10)
              (reader_of_list short_stream) None Hn) as (_ & Hnone & _).
  exact (proj1 (Hnone eq_refl)).
Defined.

(** X7 on a file of 100,001 identical records that are all kept. *)
Lemma progress_lines_witness :
  0 ≤ total (fresh 200000)
  ∧ progress_indices 0
      (yielded (WithDiagnostics "reads.fa" (fresh 200000)
                  (reader_of_list identical_file) None))
    = [100000].
Proof.
  assert (Hn : 0 ≤ total (fresh 200000)) by (simpl; lia).
  split; [exact Hn|].
  pose proof (progress_lines_at_multiples_of_100000 "reads.fa" (fresh 200000)
                (reader_of_list identical_file) Hn) as Hp.
  cbv zeta in Hp. rewrite identical_file_all_kept in Hp.
  replace (Z.of_nat (S (Z.to_nat 100000)) - 1) with 100000 in Hp by lia.
  exact Hp.
Defined.


(** X9 on the first file of the fault-tolerant run. *)
Lemma written_records_witness :
  0 ≤ total (fresh 1)
  ∧ written (yielded (normalize_file (H1 := khmer_on sample_files)
                        tolerant_args (fresh 1) "data/reads.fa" false
                        "reads.fa.keep"))
    = [("reads.fa.keep", read_acgt); ("reads.fa.keep", mate_c)].
Proof.
  assert (Hn : 0 ≤ total (fresh 1)) by (simpl; lia).
  split; [exact Hn|].
  destruct (kept_records_are_written_to_the_output
              (H1 := khmer_on sample_files) tolerant_args (fresh 1)
              "data/reads.fa" false "reads.fa.keep" Hn) as (_ & Hall).
  rewrite (Hall eq_refl). vm_compute. reflexivity.
Defined.

(** X10 on a run with a report stream whose first file is empty. *)
Lemma unhandled_exception_witness :
  let r := normalize_file (H1 := khmer_on sample_files) report_args
             (fresh 10) "empty.fa" false "empty.fa.keep" in
  raised r = Some (ZeroDivisionError "float division by zero")
  ∧ caught (ZeroDivisionError "float division by zero") = false
  ∧ process_files (H1 := khmer_on sample_files) report_args (fresh 10) []
      [("empty.fa", false); ("data/reads.fa", false)]
    = (OpenWrite "empty.fa.keep" :: yielded r,
       Raise (ZeroDivisionError "float division by zero")).
Proof.
  intros r.
  assert (Hr : raised r = Some (ZeroDivisionError "float division by zero"))
    by (vm_compute; reflexivity).
  assert (Hc : caught (ZeroDivisionError "float division by zero") = false)
    by reflexivity.
  split; [exact Hr|split; [exact Hc|]].
  exact (proj1 (unhandled_exception_ends_run (H1 := khmer_on sample_files)
                  report_args (fresh 10) [] "empty.fa" false
                  [("data/reads.fa", false)] _ Hr Hc)).
Defined.

Lemma tolerant_files_readable :
  Forall (readable (H1 := khmer_on sample_files) tolerant_args)
         (files_of tolerant_args).
Proof. repeat constructor. Qed.

(** X11 on the fault-tolerant run over a good, a broken and an empty file. *)
Lemma fault_tolerant_witness :
  force tolerant_args = true
  ∧ report tolerant_args = None
  ∧ 0 ≤ total (fresh 1)
  ∧ Forall (readable (H1 := khmer_on sample_files) tolerant_args)
           (files_of tolerant_args)
  ∧ (process_files (H1 := khmer_on sample_files) tolerant_args (fresh 1) []
       (files_of tolerant_args)).2
    = Ok (after_files (H1 := khmer_on sample_files) tolerant_args (fresh 1)
            (files_of tolerant_args),
          ["broken.fq"]).
Proof.
  assert (Hn : 0 ≤ total (fresh 1)) by (simpl; lia).
  split; [reflexivity|split; [reflexivity|split; [exact Hn|]]].
  split; [exact tolerant_files_readable|].
  exact (fault_tolerant_run_completes (H1 := khmer_on sample_files)
           tolerant_args (fresh 1) [] (files_of tolerant_args)
           eq_refl eq_refl Hn tolerant_files_readable).
Defined.

(** X12 on the same run: only the output of the broken file is removed. *)
Lemma removed_outputs_witness :
  force tolerant_args = true
  ∧ report tolerant_args = None
  ∧ 0 ≤ total (fresh 1)
  ∧ List.filter is_remove
      (process_files (H1 := khmer_on sample_files) tolerant_args (fresh 1) []
         (files_of tolerant_args)).1
    = [Remove "broken.fq.keep"].
Proof.
  assert (Hn : 0 ≤ total (fresh 1)) by (simpl; lia).
  split; [reflexivity|split; [reflexivity|split; [exact Hn|]]].
  exact (failed_files_lose_their_output (H1 := khmer_on sample_files)
           tolerant_args (fresh 1) [] (files_of tolerant_args)
           eq_refl eq_refl Hn tolerant_files_readable).
Defined.

Lemma tolerant_run_result :
  process_files (H1 := khmer_on sample_files) tolerant_args (fresh 1) []
    (files_of tolerant_args)
  = ((process_files (H1 := khmer_on sample_files) tolerant_args (fresh 1) []
        (files_of tolerant_args)).1,
     Ok (after_tolerant_run, ["broken.fq"])).
Proof. vm_compute. reflexivity. Qed.

(** X13 on the same run: three outputs are opened, in the order of the
    command line. *)
Lemma opened_outputs_witness :
  let out :=
    (process_files (H1 := khmer_on sample_files) tolerant_args (fresh 1) []
       (files_of tolerant_args)).1 in
  process_files (H1 := khmer_on sample_files) tolerant_args (fresh 1) []
    (files_of tolerant_args)
  = (out, Ok (after_tolerant_run, ["broken.fq"]))
  ∧ List.filter is_open out
    = [OpenWrite "reads.fa.keep"; OpenWrite "broken.fq.keep";
       OpenWrite "empty.fa.keep"].
Proof.
  intros out. split; [exact tolerant_run_result|].
  exact (proj1 (every_file_is_opened_once_in_order
                  (H1 := khmer_on sample_files) tolerant_args (fresh 1) []
                  (files_of tolerant_args) out after_tolerant_run
                  ["broken.fq"] tolerant_run_result)).
Defined.

(** X14 on the same run: three records are written and three are kept. *)
Lemma written_count_witness :
  let out :=
    (process_files (H1 := khmer_on sample_files) tolerant_args (fresh 1) []
       (files_of tolerant_args)).1 in
  report tolerant_args = None
  ∧ 0 ≤ total (fresh 1)
  ∧ Forall (fun file =>
              Forall logical_unit
                (units_read (H1 := khmer_on sample_files) tolerant_args file))
           (files_of tolerant_args)
  ∧ total after_tolerant_run - discarded after_tolerant_run
    = total (fresh 1) - discarded (fresh 1) + Z.of_nat (length (written out)).
Proof.
  intros out.
  assert (Hn : 0 ≤ total (fresh 1)) by (simpl; lia).
  assert (Hus : Forall (fun file =>
              Forall logical_unit
                (units_read (H1 := khmer_on sample_files) tolerant_args file))
           (files_of tolerant_args))
    by (repeat constructor).
  split; [reflexivity|split; [exact Hn|split; [exact Hus|]]].
  exact (kept_count_is_number_of_written_records
           (H1 := khmer_on sample_files) tolerant_args (fresh 1) []
           (files_of tolerant_args) out after_tolerant_run ["broken.fq"]
           eq_refl Hn Hus tolerant_run_result).
Defined.

(** X15 on the same run: a file was skipped and the exit status is 0. *)
Lemma skipped_files_witness :
  force_single tolerant_args && paired tolerant_args = false
  ∧ check_space (Khmer := khmer_on sample_files)
      (input_filenames tolerant_args) (force tolerant_args) = Ok tt
  ∧ calc_expected_collisions (Khmer := khmer_on sample_files)
      (htable after_tolerant_run) (force tolerant_args)
    = Ok (float_of_int 0)
  ∧ exit_status (main (H1 := khmer_on sample_files) tolerant_args).2 = 0.
Proof.
  split; [reflexivity|split; [reflexivity|split; [reflexivity|]]].
  destruct (skipped_files_do_not_fail_the_run (H1 := khmer_on sample_files)
              tolerant_args _ after_tolerant_run ["broken.fq"]
              (float_of_int 0) eq_refl eq_refl eq_refl tolerant_run_result
              eq_refl) as (_ & Hexit & _).
  exact Hexit.
Defined.

(** X16 on an input file in a directory. *)
Lemma output_name_witness :
  has_slash "reads.fa" = false
  ∧ basename ("data/sample1" +:+ String "/" "reads.fa") = "reads.fa".
Proof.
  assert (Hf : has_slash "reads.fa" = false) by reflexivity.
  split; [exact Hf|].
  exact (proj1 (output_goes_to_the_current_directory "data/sample1"
                  "reads.fa" Hf)).
Defined.
